(** * BaseScriptLoader: a shallow embedding of [src/BaseScriptLoader.ts]

    The loader keeps a cache of script instances in step with an external
    source of script records.  The embedding follows the class member by
    member: the private fields become a record, the abstract methods a type
    class, and every method a computation in a state-and-exception monad
    over the loader's fields, the file system and the logger.

    Layout: the JavaScript primitives the class calls ([trim], [parseInt],
    [Number.prototype.toString], [Date]), the file system, the monad, the
    methods, an interleaving semantics for the asynchronous cycle, a
    concrete host used in the examples; then the lemmas.

    What the embedding takes for granted.  The abstract methods of the
    host are total functions without effects; [getUpdatedScripts] is the
    one that can fail, by rejecting.  The logger never throws.  Loading a
    script has no effect on the loader or the file system beyond the
    module cache.  Between two [await]s nothing else runs; one record is
    processed in one step.

    The file system is a flat map from path strings to nodes, and it is
    the file system of a loader at work in its own directory: the script
    directory and, once the constructor has run, the plugins directory
    exist as directories, so that a write can only fail on a directory
    at its path.  A file operation fails when the path holds a directory
    (or, for reads and [unlink], nothing); a missing or non-directory
    parent, permissions and full disks are not modelled.  Paths are
    compared as strings: [path.join] is a concatenation, which it is for
    a file name that is one path segment ([plainName]), and the module
    cache is keyed by the path as written, which is the key of Node when
    no symbolic link lies on the path.  A statement that depends on one
    of these carries it as a hypothesis where the model can express it
    ([plainName], the script directory being a directory). *)

From Stdlib Require Import ZArith NArith Lia String Ascii List.
From stdpp Require Import base option list gmap strings pretty.

#[local] Open Scope Z_scope.

(* ================================================================== *)
(** * JavaScript primitives *)
(* ================================================================== *)

Module JS.

(** A JavaScript string is a sequence of UTF-16 code units.  File
    contents and script texts are parsed, so they are kept as code
    units; paths, keys and log messages are only compared, and are kept
    as [string]. *)
Definition units (s : string) : list N :=
  map N_of_ascii (list_ascii_of_string s).

(** ECMAScript [WhiteSpace] and [LineTerminator] code points: what
    [String.prototype.trim] and [parseInt] strip. *)
Definition isWhiteSpace (c : N) : bool :=
  ((9 <=? c) && (c <=? 13) || (c =? 32) || (c =? 160) || (c =? 5760)
   || (8192 <=? c) && (c <=? 8202) || (c =? 8232) || (c =? 8233)
   || (c =? 8239) || (c =? 8287) || (c =? 12288) || (c =? 65279))%N.

Fixpoint trimStart (s : list N) : list N :=
  match s with
  | c :: s' => if isWhiteSpace c then trimStart s' else s
  | [] => []
  end.

Definition trimEnd (s : list N) : list N := rev (trimStart (rev s)).

(** [String.prototype.trim] *)
Definition trim (s : list N) : list N := trimEnd (trimStart s).

(** Value of a code unit as a digit in radix [R] (digits, then letters
    of either case), if it is one. *)
Definition digitValue (R c : N) : option N :=
  let v := (if (48 <=? c) && (c <=? 57) then Some (c - 48)
            else if (97 <=? c) && (c <=? 122) then Some (c - 87)
            else if (65 <=? c) && (c <=? 90) then Some (c - 55)
            else None)%N in
  match v with
  | Some d => if (d <? R)%N then Some d else None
  | None => None
  end.

(** The longest prefix of radix-[R] digits, read as a number; [acc] is
    [None] until a digit has been seen. *)
Fixpoint parseDigits (R : N) (acc : option N) (s : list N) : option N :=
  match s with
  | c :: s' =>
      match digitValue R c with
      | Some d => parseDigits R (Some (default 0 acc * R + d)%N) s'
      | None => acc
      end
  | [] => acc
  end.

(** [parseInt(string)] with no radix argument.  [None] is NaN.  The
    result is the exact integer: the double that JavaScript returns
    differs from it only above 2^53, and every use below compares the
    result with 0 and with [maxTime] < 2^53, where rounding to the
    nearest double changes no answer. *)
Definition parseInt (input : list N) : option Z :=
  let S0 := trimStart input in
  let sign := match S0 with
              | c :: _ => if (c =? 45)%N then -1 else 1
              | [] => 1
              end in
  let S1 := match S0 with
            | c :: r => if ((c =? 43) || (c =? 45))%N then r else S0
            | [] => S0
            end in
  let '(R, S2) := match S1 with
                  | z :: x :: r =>
                      if ((z =? 48) && ((x =? 120) || (x =? 88)))%N
                      then (16%N, r) else (10%N, S1)
                  | _ => (10%N, S1)
                  end in
  match parseDigits R None S2 with
  | Some m => Some (sign * Z.of_N m)
  | None => None
  end.

(** Decimal digits of a natural number, most significant first. *)
Fixpoint digits_aux (fuel : nat) (n : N) (acc : list N) : list N :=
  let acc' := (48 + n mod 10)%N :: acc in
  match fuel with
  | O => acc'
  | S f => if (n / 10 =? 0)%N then acc' else digits_aux f (n / 10)%N acc'
  end.

Definition digits (n : N) : list N :=
  digits_aux (N.to_nat (N.log2 n)) n [].

(** [Number.prototype.toString] on NaN and on the integers (below 1e21
    they print in plain decimal). *)
Definition Number_toString (n : option Z) : list N :=
  match n with
  | None => units "NaN"
  | Some z => (if z <? 0 then [45%N] else []) ++ digits (Z.abs_N z)
  end.

(** A [Date] holds a time value: an integral number of milliseconds
    since the epoch, of magnitude at most 8.64e15, or NaN. *)
Inductive Date := InvalidDate | TimeValue (t : Z).

Definition maxTime : Z := 8640000000000000.

(** [new Date(n)] for an integral number [n] *)
Definition new_Date (n : Z) : Date :=
  if Z.abs n <=? maxTime then TimeValue n else InvalidDate.

(** [Date.prototype.getTime]; [None] is NaN. *)
Definition getTime (d : Date) : option Z :=
  match d with TimeValue t => Some t | InvalidDate => None end.

(** [a <= b] on dates: the comparison of the time values, false as soon
    as one is NaN. *)
Definition Date_le (a b : Date) : Prop :=
  match a, b with
  | TimeValue x, TimeValue y => x <= y
  | _, _ => False
  end.

(** The code units of the decimal digits. *)
Definition isDecimal (c : N) : Prop := (48 <= c <= 57)%N.

(** A string of white space only, and one with none. *)
Definition isBlank (s : list N) : Prop := Forall (λ c, isWhiteSpace c = true) s.
Definition noSpace (s : list N) : Prop := Forall (λ c, isWhiteSpace c = false) s.

(** A decimal integer string, one digit or more and nothing else, and
    the number it writes. *)
Definition isDecimalString (s : list N) : Prop := s ≠ [] ∧ Forall isDecimal s.
Definition decimalValue (s : list N) : N :=
  fold_left (λ a c, a * 10 + (c - 48))%N s 0%N.

(** A text that does not start with a number: it is empty, or no
    decimal digit follows its optional sign. *)
Definition startsWithoutNumber (s : list N) : Prop :=
  match s with
  | [] => True
  | c :: r =>
      if ((c =? 43) || (c =? 45))%N
      then match r with [] => True | d :: _ => ¬ isDecimal d end
      else ¬ isDecimal c
  end.

End JS.

Import JS.

(* ================================================================== *)
(** * The world the loader runs in *)
(* ================================================================== *)

(** The file system is a map from absolute paths to nodes.  A directory
    sitting at a path is what makes the file operations below fail:
    [writeFile] and [readFileSync] report EISDIR, [unlink] refuses. *)
Inductive node := File (content : list N) | Dir.

#[global] Instance node_eq_dec : EqDecision node.
Proof. solve_decision. Defined.

Inductive error :=
| SystemError (code path : string)   (* an [fs] failure *)
| TypeError (message : string)
| RangeError (message : string)
| Error (message : string)
| Thrown (origin : string).          (* raised by foreign code: a script, the source query *)

Definition error_message (e : error) : string :=
  match e with
  | SystemError code path => code +:+ ": " +:+ path
  | TypeError m | RangeError m | Error m | Thrown m => m
  end.

Inductive level := LDebug | LInfo | LWarn | LError | LLog.

Inductive log_arg :=
| AText (s : list N)
| AStr (s : string)
| AError (e : error).

(** One call of a [logger] method: the literal part of the message and
    the values interpolated into it or passed after it. *)
Record log_entry := Logged { lvl : level; message : string; args : list log_arg }.

(** How a statement ends. *)
Inductive outcome (A : Type) :=
| Return (a : A)
| Throw (e : error).
Arguments Return {A} a.
Arguments Throw {A} e.

(** A promise that has settled. *)
Inductive settled (A : Type) :=
| Resolved (a : A)
| Rejected (e : error).
Arguments Resolved {A} a.
Arguments Rejected {A} e.

(** Values of the script runtime, as far as [loadOrUpdateScript] looks at
    them: whether [x.default] can be read at all, whether [x] is truthy,
    whether [typeof x] is ['function'], and what [new x()] does (an
    instance, or [None] when it throws). *)
Inductive js_value (T : Type) :=
| VNullish
| VFalsy
| VTruthy
| VFunction (construct : option T).
Arguments VNullish {T}.
Arguments VFalsy {T}.
Arguments VTruthy {T}.
Arguments VFunction {T} construct.

(** What [require] returns: the value of [module.exports] and of its
    [default] property ([VNullish] when there is none). *)
Record module_value (T : Type) := Module {
  exports : js_value T;
  exports_default : js_value T
}.
Arguments Module {T} exports exports_default.
Arguments exports {T} m.
Arguments exports_default {T} m.

(** [ScriptInstance<T, K>] *)
Record ScriptInstance (T K : Type) := Instance_ { metaData : K; instance : T }.
Arguments Instance_ {T K} metaData instance.
Arguments metaData {T K} s.
Arguments instance {T K} s.

(** The abstract methods of [BaseScriptLoader<T, K>] and the directory
    given to its constructor (already resolved).  [getUpdatedScripts] is
    asynchronous and answers from the external source: it is the
    [source] argument of a cycle below. *)
Class Host (T K : Type) := {
  scriptDir : string;
  getNextAnchor : list K → Date;
  isActiveScript : K → bool;
  isObsoletedScript : K → bool;
  getFileName : K → string;
  getScriptKey : K → string;
  getScriptText : K → list N
}.

(** What the source answers when asked for the records after an anchor. *)
Definition source (K : Type) := Date → settled (list K).

(** The script runtime: what evaluating a module text yields ([None]: the
    evaluation throws), and the text of [toISOString] for a valid time. *)
Class Runtime (T : Type) := {
  evalModule : list N → option (module_value T);
  isoText : Z → string
}.

Section Loader.
Context {T K : Type} `{!Host T K} `{!Runtime T}.

(** The private fields of the class, the file system, the module cache
    of [require] and the log.  [watchInterval] is [true] while the
    interval timer is set. *)
Record state := State {
  scriptsCache : gmap string (ScriptInstance T K);
  anchor : Date;
  isLoading : bool;
  watchInterval : bool;
  files : gmap string node;
  require_cache : gmap string (module_value T);
  logged : list log_entry
}.

Definition set_scriptsCache (f : gmap string (ScriptInstance T K) → gmap string (ScriptInstance T K))
    (st : state) : state :=
  State (f (scriptsCache st)) (anchor st) (isLoading st) (watchInterval st)
        (files st) (require_cache st) (logged st).
Definition set_anchor (a : Date) (st : state) : state :=
  State (scriptsCache st) a (isLoading st) (watchInterval st)
        (files st) (require_cache st) (logged st).
Definition set_isLoading (b : bool) (st : state) : state :=
  State (scriptsCache st) (anchor st) b (watchInterval st)
        (files st) (require_cache st) (logged st).
Definition set_watchInterval (b : bool) (st : state) : state :=
  State (scriptsCache st) (anchor st) (isLoading st) b
        (files st) (require_cache st) (logged st).
Definition set_files (f : gmap string node → gmap string node) (st : state) : state :=
  State (scriptsCache st) (anchor st) (isLoading st) (watchInterval st)
        (f (files st)) (require_cache st) (logged st).
Definition set_require_cache (f : gmap string (module_value T) → gmap string (module_value T))
    (st : state) : state :=
  State (scriptsCache st) (anchor st) (isLoading st) (watchInterval st)
        (files st) (f (require_cache st)) (logged st).
Definition add_log (e : log_entry) (st : state) : state :=
  State (scriptsCache st) (anchor st) (isLoading st) (watchInterval st)
        (files st) (require_cache st) (logged st ++ [e]).

(** ** The monad: state that survives an exception *)

Definition M (A : Type) : Type := state → outcome A * state.

#[local] Instance M_ret : MRet M := λ A a st, (Return a, st).
#[local] Instance M_bind : MBind M := λ A B f c st,
  match c st with
  | (Return a, st') => f a st'
  | (Throw e, st') => (Throw e, st')
  end.

Definition throw {A} (e : error) : M A := λ st, (Throw e, st).
Definition gets {A} (f : state → A) : M A := λ st, (Return (f st), st).
Definition modify (f : state → state) : M unit := λ st, (Return tt, f st).

(** [try { c } catch (e) { h e }] *)
Definition try_catch {A} (c : M A) (h : error → M A) : M A := λ st,
  match c st with
  | (Return a, st') => (Return a, st')
  | (Throw e, st') => h e st'
  end.

(** [try { c } finally { fin }] *)
Definition try_finally {A} (c : M A) (fin : M unit) : M A := λ st,
  let '(o, st1) := c st in
  match fin st1 with
  | (Return _, st2) => (o, st2)
  | (Throw e, st2) => (Throw e, st2)
  end.

(** [await p] on a promise that settles as [p] *)
Definition await {A} (p : settled A) : M A :=
  match p with
  | Resolved a => mret a
  | Rejected e => throw e
  end.

(** [for (const x of l) { await body x }] *)
Fixpoint forOf {A} (l : list A) (body : A → M unit) : M unit :=
  match l with
  | [] => mret tt
  | x :: l' => body x ;; forOf l' body
  end.

Definition logger (l : level) (msg : string) (a : list log_arg) : M unit :=
  modify (add_log (Logged l msg a)).

(** ** [fs] *)

Definition existsSync (p : string) : M bool :=
  gets (λ st, bool_decide (is_Some (files st !! p))).

Definition readFileSync (p : string) : M (list N) :=
  fs ← gets files;
  match fs !! p with
  | Some (File c) => mret c
  | Some Dir => throw (SystemError "EISDIR" p)
  | None => throw (SystemError "ENOENT" p)
  end.

(** [fs.writeFileSync] and [fs.writeFile]: the content replaces what
    the file held.  The parent of [p] is taken to be a directory: the
    one failure is a directory at [p] itself. *)
Definition writeFile (p : string) (data : list N) : M unit :=
  fs ← gets files;
  match fs !! p with
  | Some Dir => throw (SystemError "EISDIR" p)
  | _ => modify (set_files (insert p (File data)))
  end.

Definition access (p : string) : M unit :=
  fs ← gets files;
  match fs !! p with
  | Some _ => mret tt
  | None => throw (SystemError "ENOENT" p)
  end.

Definition unlink (p : string) : M unit :=
  fs ← gets files;
  match fs !! p with
  | Some (File _) => modify (set_files (delete p))
  | Some Dir => throw (SystemError "EISDIR" p)
  | None => throw (SystemError "ENOENT" p)
  end.

(** [require(filePath)]: the cached module if there is one, else the
    file is evaluated and the module cached.  The cache is keyed by
    [filePath] as written, as [require.cache[filePath]] in the class
    is; Node keys it by the real path, the same string when no symbolic
    link lies on the path. *)
Definition require (filePath : string) : M (module_value T) :=
  rc ← gets require_cache;
  match rc !! filePath with
  | Some m => mret m
  | None =>
      src ← readFileSync filePath;
      match evalModule src with
      | Some m => modify (set_require_cache (insert filePath m)) ;; mret m
      | None => throw (Thrown "module")
      end
  end.

(** [date.toISOString()] *)
Definition toISOString (d : Date) : M string :=
  match d with
  | TimeValue t => mret (isoText t)
  | InvalidDate => throw (RangeError "Invalid time value")
  end.

(** ** The methods of the class *)

Definition timestampFile : string := scriptDir +:+ "/.last_update_timestamp".

(** [path.join(this.scriptDir, 'plugins', `${fileName}.js`)], for a
    normalised [scriptDir] and a file name that is one path segment
    ([plainName] below): there [path.join] has nothing to normalise. *)
Definition pluginPath (fileName : string) : string :=
  scriptDir +:+ "/plugins/" +:+ fileName +:+ ".js".

(** The [try] block of [loadLastUpdateTimestamp]: [Some date] when it
    returns [date], [None] when control leaves the block normally. *)
Definition loadLastUpdateTimestamp_try (clean : bool) : M (option Date) :=
  found ← (if negb clean then existsSync timestampFile else mret false);
  if found : bool then
    raw ← readFileSync timestampFile;
    let timestamp := trim raw in
    let timestampNum := parseInt timestamp in
    match timestampNum with
    | Some n =>
        if 0 <? n then
          let date := new_Date n in
          iso ← toISOString date;
          logger LDebug "加载上次更新时间戳: " [AStr iso] ;;
          mret (Some date)
        else
          logger LWarn "无效的时间戳格式: " [AText timestamp] ;; mret None
    | None =>
        logger LWarn "无效的时间戳格式: " [AText timestamp] ;; mret None
    end
  else mret None.

Definition loadLastUpdateTimestamp (clean : bool) : M Date :=
  r ← try_catch (loadLastUpdateTimestamp_try clean)
        (λ error, logger LError "读取时间戳文件失败:" [AError error] ;; mret None);
  match r with
  | Some date => mret date
  | None =>
      logger LDebug "使用默认时间戳: Unix epoch (1970-01-01)" [] ;;
      mret (new_Date 0)
  end.

Definition saveLastUpdateTimestamp (timestamp : Date) : M unit :=
  try_catch
    (writeFile timestampFile (Number_toString (getTime timestamp)) ;;
     iso ← toISOString timestamp;
     logger LDebug "保存时间戳: " [AStr iso])
    (λ error, logger LError "保存时间戳文件失败:" [AError error]).

Definition writeScriptFile (filePath : string) (script : list N) : M unit :=
  try_catch (writeFile filePath script)
    (λ err, throw (Error ("Failed to write script file " +:+ filePath +:+ ": "
                          +:+ error_message err))).

(** [moduleExports.default || moduleExports] *)
Definition defaultOrSelf (moduleExports : module_value T) : M (js_value T) :=
  match exports moduleExports with
  | VNullish => throw (TypeError "Cannot read properties of undefined (reading 'default')")
  | _ =>
      match exports_default moduleExports with
      | VNullish | VFalsy => mret (exports moduleExports)
      | d => mret d
      end
  end.

(** The [try] block of [loadOrUpdateScript]. *)
Definition loadOrUpdateScript_try (scriptData : K) (key filePath : string) : M unit :=
  cache ← gets scriptsCache;
  let isNew := negb (bool_decide (is_Some (cache !! key))) in
  writeScriptFile filePath (getScriptText scriptData) ;;
  logger LInfo ("Script file " +:+ (if isNew then "created" else "updated") +:+ ": ")
    [AStr filePath] ;;
  rc ← gets require_cache;
  (if bool_decide (is_Some (rc !! filePath))
   then modify (set_require_cache (delete filePath)) else mret tt) ;;
  moduleExports ← require filePath;
  ScriptClass ← defaultOrSelf moduleExports;
  match ScriptClass with
  | VFunction construct =>
      match construct with
      | Some instance =>
          let apiInstance := Instance_ scriptData instance in
          modify (set_scriptsCache (insert key apiInstance))
      | None => throw (Thrown "constructor")
      end
  | _ => throw (Error ("Script module does not export a constructor: " +:+ filePath))
  end.

Definition loadOrUpdateScript (scriptData : K) : M unit :=
  let fileName := getFileName scriptData in
  let key := getScriptKey scriptData in
  let filePath := pluginPath fileName in
  try_catch (loadOrUpdateScript_try scriptData key filePath)
    (λ error, logger LError "Failed to load/update script " [AStr filePath; AError error]).

Definition removeScriptFile (filePath : string) : M unit :=
  found ← try_catch (access filePath ;; mret true) (λ _, mret false);
  (if found : bool then
     unlink filePath ;;
     logger LInfo "Script file deleted: " [AStr filePath]
   else
     logger LInfo "Script file not found: " [AStr filePath]) ;;
  rc ← gets require_cache;
  if bool_decide (is_Some (rc !! filePath)) then
    modify (set_require_cache (delete filePath)) ;;
    logger LDebug "Require cache cleared for: " [AStr filePath]
  else mret tt.

Definition removeScript (scriptData : K) : M unit :=
  let fileName := getFileName scriptData in
  let key := getScriptKey scriptData in
  let filePath := pluginPath fileName in
  removeScriptFile filePath ;;
  cache ← gets scriptsCache;
  if bool_decide (is_Some (cache !! key)) then
    modify (set_scriptsCache (delete key))
  else mret tt.

Definition processScriptUpdate (scriptData : K) : M unit :=
  if isActiveScript scriptData then
    loadOrUpdateScript scriptData
  else if isObsoletedScript scriptData then
    removeScript scriptData
  else mret tt.

(** The [try] block of [loadLatestScripts]. *)
Definition loadLatestScripts_try (getUpdatedScripts : source K) : M unit :=
  a ← gets anchor;
  scriptList ← await (getUpdatedScripts a);
  if (0 <? length scriptList)%nat then
    forOf scriptList processScriptUpdate ;;
    modify (set_anchor (getNextAnchor scriptList)) ;;
    a' ← gets anchor;
    saveLastUpdateTimestamp a'
  else mret tt.

(** One call of [loadLatestScripts], run to the end with nothing in
    between its steps. *)
Definition loadLatestScripts (getUpdatedScripts : source K) : M unit :=
  busy ← gets isLoading;
  if busy : bool then
    logger LDebug "Script loading already in progress, skipping..." []
  else
    modify (set_isLoading true) ;;
    try_finally
      (try_catch (loadLatestScripts_try getUpdatedScripts)
         (λ error, logger LError "Error loading latest scripts:" [AError error]))
      (modify (set_isLoading false)).


(** [get(key)]; [None] is [null]. *)
Definition get (key : string) (st : state) : option T :=
  match scriptsCache st !! key with
  | Some scriptInst => Some (instance scriptInst)
  | None => None
  end.

(** The state of the loader after a run of cycles, one source answer
    per cycle. *)
Definition cycle (st : state) (src : source K) : state := (loadLatestScripts src st).2.
Definition run_cycles (srcs : list (source K)) (st : state) : state :=
  foldl cycle st srcs.

End Loader.

Arguments state T K : clear implicits.
Arguments M T K A : clear implicits.
#[global] Existing Instances M_ret M_bind.

(* ================================================================== *)
(** * Construction, timer, and the asynchronous cycle step by step *)
(* ================================================================== *)

Section Scheduler.
Context {T K : Type} `{!Host T K} `{!Runtime T}.

(** [dir] itself or a path below it *)
Definition under (dir p : string) : Prop :=
  p = dir ∨ String.prefix (dir +:+ "/") p = true.

#[local] Instance under_dec dir p : Decision (under dir p).
Proof. unfold under. apply _. Defined.

(** [fs.rmSync] with [recursive] and [force] takes away the directory
    and all below it; [fs.mkdirSync] with [recursive] is modelled where
    the script directory exists, so that it makes the one directory and
    does not throw. *)
Definition ensurePluginsDirectory (directory : string) (clean : bool) : M T K unit :=
  let dir := scriptDir +:+ "/" +:+ directory in
  (if clean then
     logger LInfo "清空脚本插件路径" [AStr dir] ;;
     modify (set_files (filter (λ kv, ¬ under dir kv.1)))
   else mret tt) ;;
  found ← existsSync dir;
  if found : bool then mret tt
  else
    modify (set_files (insert dir Dir)) ;;
    logger LInfo "Created plugins directory: " [AStr dir].

(** The interval is not modelled: a timer tick is an event of the
    scheduler below, possible while [watchInterval] is set. *)
Definition startWatching : M T K unit :=
  modify (set_watchInterval true) ;;
  logger LLog "Started watching for script changes" [].

Definition stopWatching : M T K unit :=
  w ← gets watchInterval;
  if w : bool then
    modify (set_watchInterval false) ;;
    logger LLog "Stopped watching for script changes" []
  else mret tt.

(** The constructor, on the file system and module cache it finds:
    the loader it returns where the script directory exists (where a
    file sits at the script directory the constructor of the class
    throws and returns no loader). *)
Definition new_BaseScriptLoader (clean : bool) (fs : gmap string node)
    (rc : gmap string (module_value T)) : state T K :=
  ((logger LDebug "创建脚本管理器，插件路径:" [AStr scriptDir] ;;
    ensurePluginsDirectory "plugins" clean ;;
    a ← loadLastUpdateTimestamp clean;
    modify (set_anchor a) ;;
    startWatching)
     (State ∅ (new_Date 0) false false fs rc [])).2.

(** A call of [loadLatestScripts] that went past the guard and is
    suspended at an [await]: on the source query made with anchor [a],
    or inside the loop over [whole] with [rest] still to process. *)
Inductive task :=
| AwaitFetch (a : Date)
| InBatch (rest whole : list K).

(** The loader together with the calls in flight. *)
Record system := System { loader : state T K; inflight : list task }.

(** The [catch] and [finally] clauses of [loadLatestScripts], entered
    with the way the [try] block ended. *)
Definition loadLatestScripts_exit (o : outcome unit) : M T K unit :=
  try_finally
    (try_catch (λ st, (o, st))
       (λ error, logger LError "Error loading latest scripts:" [AError error]))
    (modify (set_isLoading false)).

(** [loadLatestScripts] up to its first [await]. *)
Definition enter (s : system) : system :=
  if isLoading (loader s) then
    System (logger LDebug "Script loading already in progress, skipping..." [] (loader s)).2
           (inflight s)
  else
    System (set_isLoading true (loader s))
           (inflight s ++ [AwaitFetch (anchor (loader s))]).

(** The query settles. *)
Definition resume_fetch (a : Date) (src : source K) (st : state T K)
    : state T K * option task :=
  match await (src a) st with
  | (Return scriptList, st') =>
      if (0 <? length scriptList)%nat
      then (st', Some (InBatch scriptList scriptList))
      else ((loadLatestScripts_exit (Return tt) st').2, None)
  | (Throw e, st') => ((loadLatestScripts_exit (Throw e) st').2, None)
  end.

(** One turn of the loop, or what follows it. *)
Definition resume_batch (rest whole : list K) (st : state T K)
    : state T K * option task :=
  match rest with
  | item :: rest' =>
      match processScriptUpdate item st with
      | (Return _, st') => (st', Some (InBatch rest' whole))
      | (Throw e, st') => ((loadLatestScripts_exit (Throw e) st').2, None)
      end
  | [] =>
      let '(o, st') := (modify (set_anchor (getNextAnchor whole)) ;;
                        a' ← gets anchor;
                        saveLastUpdateTimestamp a') st in
      ((loadLatestScripts_exit o st').2, None)
  end.

Inductive event :=
| TimerTick
| CheckForUpdates
| StopWatching
| Settle (i : nat) (src : source K)   (* the query of call [i] settles *)
| Advance (i : nat).                  (* call [i] runs to its next [await] *)

Definition continue (i : nat) (r : state T K * option task) (s : system) : system :=
  match r.2 with
  | Some t => System r.1 (<[i := t]> (inflight s))
  | None => System r.1 (delete i (inflight s))
  end.

Definition step (s : system) (e : event) : system :=
  match e with
  | TimerTick => if watchInterval (loader s) then enter s else s
  | CheckForUpdates =>
      enter (System (logger LLog "Manually checking for script updates..." [] (loader s)).2
                    (inflight s))
  | StopWatching => System (stopWatching (loader s)).2 (inflight s)
  | Settle i src =>
      match inflight s !! i with
      | Some (AwaitFetch a) => continue i (resume_fetch a src (loader s)) s
      | _ => s
      end
  | Advance i =>
      match inflight s !! i with
      | Some (InBatch rest whole) => continue i (resume_batch rest whole (loader s)) s
      | _ => s
      end
  end.

Definition run (evs : list event) (s : system) : system := foldl step s evs.

(** States the scheduler can reach from a loader at rest. *)
Inductive reachable : system → Prop :=
| reachable_idle st : isLoading st = false → reachable (System st [])
| reachable_step s e : reachable s → reachable (step s e).

End Scheduler.

Arguments task K : clear implicits.
Arguments system T K : clear implicits.
Arguments event K : clear implicits.

(* ================================================================== *)
(** * Vocabulary of the properties *)
(* ================================================================== *)

Section Vocabulary.
Context {T K : Type} `{!Host T K} `{!Runtime T}.

(** The path of the artifact of a record. *)
Definition artifact (scriptData : K) : string := pluginPath (getFileName scriptData).

(** The host with another [isObsoletedScript]. *)
Definition with_obsolete (obs : K → bool) : Host T K := {|
  scriptDir := scriptDir;
  getNextAnchor := getNextAnchor;
  isActiveScript := isActiveScript;
  isObsoletedScript := obs;
  getFileName := getFileName;
  getScriptKey := getScriptKey;
  getScriptText := getScriptText
|}.

(** The class a module hands to [loadOrUpdateScript], when
    [moduleExports.default] can be read, and the instance the text of a
    script yields: the module loads, its entry point is a function and
    [new] on it returns. *)
Definition entryPoint (m : module_value T) : option (js_value T) :=
  match exports m with
  | VNullish => None
  | _ => Some match exports_default m with
              | VNullish | VFalsy => exports m
              | d => d
              end
  end.

Definition constructed (text : list N) : option T :=
  match evalModule text with
  | Some m =>
      match entryPoint m with
      | Some (VFunction (Some instance)) => Some instance
      | _ => None
      end
  | None => None
  end.

(** A record on the removal path whose artifact cannot be unlinked. *)
Definition undeletable (st : state T K) (scriptData : K) : Prop :=
  isActiveScript scriptData = false ∧ isObsoletedScript scriptData = true
  ∧ files st !! artifact scriptData = Some Dir.

(** The contract of [getNextAnchor] for a batch fetched at anchor [a],
    [position] being the place of a record in the source's order. *)
Definition anchor_contract (position : K → Date) (a : Date) (l : list K) : Prop :=
  Forall (λ r, Date_le (position r) (getNextAnchor l)) l
  ∧ Date_le a (getNextAnchor l).

(** The contract is obeyed at every non-empty batch of a run of
    cycles. *)
Fixpoint contract_kept (position : K → Date) (srcs : list (source K))
    (st : state T K) : Prop :=
  match srcs with
  | [] => True
  | src :: rest =>
      (∀ l, src (anchor st) = Resolved l → l ≠ [] →
            anchor_contract position (anchor st) l)
      ∧ contract_kept position rest (cycle st src)
  end.

(** A computation relates the state it starts in to the state it
    ends in by [R], however it ends; or when it ends in a throw. *)
Definition preserves {A} (R : relation (state T K)) (c : M T K A) : Prop :=
  ∀ st o st', c st = (o, st') → R st st'.

Definition preserves_on_throw {A} (R : relation (state T K)) (c : M T K A) : Prop :=
  ∀ st e st', c st = (Throw e, st') → R st st'.

(** The two states agree on what [f] reads. *)
Definition agree_on {B} (f : state T K → B) : relation (state T K) :=
  λ st st', f st' = f st.

(** The fields that only [loadLatestScripts] and the timer methods
    write. *)
Definition control (st : state T K) : Date * bool * bool :=
  (anchor st, isLoading st, watchInterval st).

(** The same paths hold directories. *)
Definition same_dirs : relation (state T K) :=
  λ st st', ∀ p, files st' !! p = Some Dir ↔ files st !! p = Some Dir.

(** The entries [loadLatestScripts] logs at its guard and in its
    [catch] clause, and the state the [catch] clause leaves. *)
Definition busy_entry : log_entry :=
  Logged LDebug "Script loading already in progress, skipping..." [].
Definition failed_entry (e : error) : log_entry :=
  Logged LError "Error loading latest scripts:" [AError e].
Definition caught (r : outcome unit * state T K) : state T K :=
  match r with
  | (Return _, st) => st
  | (Throw e, st) => add_log (failed_entry e) st
  end.

(** The guard's invariant: no call is in flight and the flag is down,
    or one call is and the flag is up. *)
Definition one_in_flight (s : system T K) : Prop :=
  (inflight s = [] ∧ isLoading (loader s) = false)
  ∨ (∃ t, inflight s = [t] ∧ isLoading (loader s) = true).

(** What a dropped trigger may change: the log only. *)
Definition but_log (st : state T K) :=
  (scriptsCache st, anchor st, isLoading st, watchInterval st, files st,
   require_cache st).

(** The batch a source answers with at an anchor; empty on rejection. *)
Definition batch_at (src : source K) (a : Date) : list K :=
  match src a with
  | Resolved l => l
  | Rejected _ => []
  end.

(** A computation that does not read the log: from two states that
    differ in the log only it ends the same way, in two states that
    differ in the log only.  The same for two systems. *)
Definition log_blind {A} (c : M T K A) : Prop :=
  ∀ st st', but_log st = but_log st' →
            (c st).1 = (c st').1 ∧ but_log (c st).2 = but_log (c st').2.

Definition same_but_log (s s' : system T K) : Prop :=
  inflight s = inflight s' ∧ but_log (loader s) = but_log (loader s').

(** The directory the constructor makes sure of. *)
Definition pluginsDirectory : string := scriptDir +:+ "/" +:+ "plugins".

(** The file system [ensurePluginsDirectory] leaves. *)
Definition ensured (clean : bool) (fs : gmap string node) : gmap string node :=
  let fs1 := if clean then filter (λ kv, ¬ under pluginsDirectory kv.1) fs else fs in
  if decide (is_Some (fs1 !! pluginsDirectory)) then fs1
  else <[pluginsDirectory := Dir]> fs1.

(** What the timestamp file holds once [a] is saved. *)
Definition persisted (a : Date) : node := File (Number_toString (getTime a)).

(** The entry the [catch] clause of [saveLastUpdateTimestamp] logs when
    the write fails with [e]. *)
Definition save_failed_entry (e : error) : log_entry :=
  Logged LError "保存时间戳文件失败:" [AError e].

(** A file name that is one path segment: no separator in it, so that
    [path.join] has nothing to normalise and the artifact lies directly
    in the plugins directory. *)
Definition plainName (fileName : string) : Prop :=
  Forall (λ c, c ≠ ascii_of_nat 47 ∧ c ≠ ascii_of_nat 92)
         (list_ascii_of_string fileName).

(** The second half of the anchor property read literally: after any
    cycle over a non-empty batch the anchor is [getNextAnchor] of the
    batch and the timestamp file holds it. *)
Definition anchor_advanced_and_persisted (st : state T K) (src : source K) : Prop :=
  ∀ l, src (anchor st) = Resolved l → l ≠ [] →
       anchor (cycle st src) = getNextAnchor l
       ∧ files (cycle st src) !! timestampFile = Some (persisted (getNextAnchor l)).

(** [load] read literally: the epoch when asked to reset, when the file
    is absent, when its trimmed content is not a number or not
    positive; the date of the parsed number otherwise.  Nothing is said
    of a path that holds no file content. *)
Definition load_as_described (clean : bool) (st : state T K) : Prop :=
  let r := (loadLastUpdateTimestamp clean st).1 in
  if clean then r = Return (new_Date 0)
  else match files st !! timestampFile with
       | None => r = Return (new_Date 0)
       | Some (File c) =>
           match parseInt (trim c) with
           | None => r = Return (new_Date 0)
           | Some n => if n <=? 0 then r = Return (new_Date 0)
                       else r = Return (new_Date n)
           end
       | Some Dir => True
       end.

End Vocabulary.

(* ================================================================== *)
(** * A concrete host *)
(* ================================================================== *)

Module Demo.

(** Records as in the scenario of the specification: a key, a name, a
    text, the two flags the predicates read and a position. *)
Record script := Script {
  key : string;
  name : string;
  content : list N;
  active : bool;
  obsolete : bool;
  position : Z
}.

(** Instances are named after the class that built them. *)
#[export] Instance host : Host string script := {|
  scriptDir := "/srv/scripts";
  getNextAnchor l :=
    match map position l with
    | [] => InvalidDate
    | x :: xs => new_Date (foldl Z.max x xs)
    end;
  isActiveScript := active;
  isObsoletedScript := obsolete;
  getFileName := name;
  getScriptKey := key;
  getScriptText := content
|}.

Definition classA : list N := units "module.exports = class A {}".
Definition classB : list N := units "module.exports = class B {}".
Definition defaultC : list N := units "exports.default = class C {}".
Definition notAClass : list N := units "module.exports = 42".
Definition arrow : list N := units "module.exports = () => {}".

(** A runtime that knows five module texts; any other text throws.  As
    the ISO text of a time it prints the number of milliseconds. *)
#[export] Instance runtime : Runtime string := {|
  evalModule src :=
    if decide (src = classA) then Some (Module (VFunction (Some "A")) VNullish)
    else if decide (src = classB) then Some (Module (VFunction (Some "B")) VNullish)
    else if decide (src = defaultC) then Some (Module VTruthy (VFunction (Some "C")))
    else if decide (src = notAClass) then Some (Module VTruthy VNullish)
    else if decide (src = arrow) then Some (Module (VFunction None) VNullish)
    else None;
  isoText t := pretty t
|}.

Definition tsFile : string := "/srv/scripts/.last_update_timestamp".

Definition recA : script := Script "a" "a" classA true false 100.
Definition recA_bad : script := Script "a" "a" notAClass true false 200.
Definition recA_gone : script := Script "a" "a" [] false true 300.
Definition recOld_gone : script := Script "old" "old" [] false true 150.
Definition recB : script := Script "b" "b" classB true false 160.
Definition recBoth : script := Script "b" "b" classB true true 170.
Definition recNeither : script := Script "n" "n" classB false false 180.
Definition recA_v2 : script := Script "a" "a" classB true false 250.

(** A source that is down. *)
Definition failing : source script := λ _, Rejected (Thrown "source down").

(** A fresh loader over an empty script directory. *)
Definition fresh : state string script :=
  new_BaseScriptLoader false ∅ ∅.

(** The loader after one cycle that activated [recA]. *)
Definition withA : state string script :=
  cycle fresh (λ _, Resolved [recA]).

(** A loader at the epoch whose [plugins/old.js] is a directory. *)
Definition blocked : state string script :=
  new_BaseScriptLoader false {[ "/srv/scripts/plugins/old.js" := Dir ]} ∅.

(** A loader whose timestamp path is a directory. *)
Definition unwritable : state string script :=
  new_BaseScriptLoader false {[ tsFile := Dir ]} ∅.

(** A state whose timestamp file holds [text]. *)
Definition holding (text : string) : state string script :=
  State ∅ (new_Date 0) false false {[ tsFile := File (units text) ]} ∅ [].

(** The place of a record in the source's order, as a date. *)
Definition placed (r : script) : Date := new_Date (position r).

(** The source answers with a fixed batch. *)
Definition answering (l : list script) : source script := λ _, Resolved l.

End Demo.


(* ================================================================== *)
(** * Lemmas on the primitives *)
(* ================================================================== *)

Section Primitives.

Lemma digitValue_decimal (d : N) :
  (d < 10)%N → digitValue 10 (48 + d) = Some d.
Proof.
  intros Hd. unfold digitValue.
  replace (48 <=? 48 + d)%N with true by (symmetry; apply N.leb_le; lia).
  replace (48 + d <=? 57)%N with true by (symmetry; apply N.leb_le; lia).
  simpl. replace (48 + d - 48)%N with d by lia.
  apply N.ltb_lt in Hd. now rewrite Hd.
Qed.

(** Reading back the digits of [n] shifts the accumulator and adds [n]. *)
Lemma parseDigits_digits_aux (fuel : nat) :
  ∀ (n : N) (acc : list N), (n < 10 ^ N.of_nat (S fuel))%N →
    ∃ k : N, ∀ a : option N,
      parseDigits 10 a (digits_aux fuel n acc)
      = parseDigits 10 (Some (default 0 a * 10 ^ k + n)%N) acc.
Proof.
  induction fuel as [|fuel IH]; intros n acc Hn.
  - exists 1%N. intros a. simpl in *.
    assert (n mod 10 = n)%N as -> by (apply N.mod_small; lia).
    rewrite digitValue_decimal by lia. now rewrite N.pow_1_r.
  - cbn [digits_aux]. destruct (N.eqb_spec (n / 10) 0) as [Hz|Hnz].
    + exists 1%N. intros a. cbn [parseDigits].
      assert (n < 10)%N as Hlt.
      { destruct (N.lt_ge_cases n 10) as [?|Hge]; [done|].
        apply (N.Div0.div_le_mono _ _ 10) in Hge.
        rewrite N.div_same in Hge by lia. lia. }
      assert (n mod 10 = n)%N as -> by (apply N.mod_small; lia).
      rewrite digitValue_decimal by lia. now rewrite N.pow_1_r.
    + destruct (IH (n / 10)%N ((48 + n mod 10)%N :: acc)) as [k Hk].
      { apply N.Div0.div_lt_upper_bound.
        rewrite Nat2N.inj_succ, N.pow_succ_r' in Hn. lia. }
      exists (N.succ k). intros a. rewrite Hk. cbn [parseDigits].
      rewrite digitValue_decimal by (apply N.mod_lt; lia).
      f_equal. f_equal. cbn [default]. rewrite N.pow_succ_r'.
      pose proof (N.div_mod n 10 ltac:(lia)) as Hdm. unfold id.
      generalize dependent (n / 10)%N. generalize (n mod 10)%N.
      generalize (10 ^ k)%N (default 0%N a). intros; nia.
Qed.

Lemma log2_fuel (n : N) : (n < 10 ^ N.of_nat (S (N.to_nat (N.log2 n))))%N.
Proof.
  rewrite Nat2N.inj_succ, N2Nat.id.
  apply N.lt_le_trans with (2 ^ N.succ (N.log2 n))%N.
  - destruct n as [|p]; [done|]. apply N.log2_spec. lia.
  - apply N.pow_le_mono_l. lia.
Qed.

Lemma parseDigits_digits (n : N) : parseDigits 10 None (digits n) = Some n.
Proof.
  destruct (parseDigits_digits_aux (N.to_nat (N.log2 n)) n [] (log2_fuel n)) as [k Hk].
  unfold digits. rewrite Hk. simpl. reflexivity.
Qed.

Lemma digits_aux_decimal (fuel : nat) :
  ∀ n acc, Forall isDecimal acc → Forall isDecimal (digits_aux fuel n acc).
Proof.
  assert (∀ n acc, Forall isDecimal acc → Forall isDecimal ((48 + n mod 10)%N :: acc)) as Hc.
  { intros n acc Hacc. constructor; [|done].
    pose proof (N.mod_lt n 10 ltac:(lia)) as Hm. unfold isDecimal.
    revert Hm. generalize (n mod 10)%N. intros; lia. }
  induction fuel as [|fuel IH]; intros n acc Hacc; cbn [digits_aux]; [by apply Hc|].
  destruct (n / 10 =? 0)%N; [by apply Hc|]. apply IH. by apply Hc.
Qed.

Lemma digits_decimal (n : N) : Forall isDecimal (digits n).
Proof. apply digits_aux_decimal. constructor. Qed.

Lemma digits_aux_cons (fuel : nat) :
  ∀ n acc, ∃ c r, digits_aux fuel n acc = c :: r.
Proof.
  induction fuel as [|fuel IH]; intros n acc; cbn [digits_aux]; [eauto|].
  destruct (n / 10 =? 0)%N; eauto.
Qed.

Lemma decimal_not_space (c : N) : isDecimal c → isWhiteSpace c = false.
Proof.
  unfold isDecimal, isWhiteSpace. intros [Hlo Hhi].
  replace (c <=? 13)%N with false by (symmetry; apply N.leb_gt; lia).
  replace (8192 <=? c)%N with false by (symmetry; apply N.leb_gt; lia).
  repeat match goal with
         | |- context [(c =? ?b)%N] =>
             replace (c =? b)%N with false by (symmetry; apply N.eqb_neq; lia)
         end.
  by rewrite andb_false_r.
Qed.

Lemma trimStart_decimal (s : list N) : Forall isDecimal s → trimStart s = s.
Proof.
  destruct 1 as [|c s Hc Hs]; [done|]. simpl. by rewrite decimal_not_space.
Qed.

Lemma trim_decimal (s : list N) : Forall isDecimal s → trim s = s.
Proof.
  intros Hs. unfold trim, trimEnd. rewrite (trimStart_decimal s Hs).
  rewrite trimStart_decimal; [apply rev_involutive|].
  by apply List.Forall_rev.
Qed.

(** [parseInt] reads a decimal rendering back. *)
Lemma parseInt_digits (n : N) : parseInt (digits n) = Some (Z.of_N n).
Proof.
  pose proof (digits_decimal n) as Hd. pose proof (parseDigits_digits n) as Hp.
  unfold parseInt. rewrite (trimStart_decimal _ Hd).
  destruct (digits n) as [|c r] eqn:E.
  { destruct (digits_aux_cons (N.to_nat (N.log2 n)) n []) as (c & r & Hcr).
    unfold digits in E. congruence. }
  inversion Hd as [|? ? Hc Hr]; subst. unfold isDecimal in Hc.
  replace (c =? 45)%N with false by (symmetry; apply N.eqb_neq; lia).
  replace (c =? 43)%N with false by (symmetry; apply N.eqb_neq; lia).
  cbn [orb].
  destruct r as [|x r].
  - rewrite Hp. f_equal. lia.
  - inversion Hr as [|? ? Hx _]; subst. unfold isDecimal in Hx.
    replace (x =? 120)%N with false by (symmetry; apply N.eqb_neq; lia).
    replace (x =? 88)%N with false by (symmetry; apply N.eqb_neq; lia).
    rewrite andb_false_r. rewrite Hp. f_equal. lia.
Qed.

Lemma Number_toString_nonneg (t : Z) :
  0 <= t → Number_toString (Some t) = digits (Z.to_N t).
Proof.
  intros Ht. unfold Number_toString.
  replace (t <? 0) with false by (symmetry; apply Z.ltb_ge; lia).
  simpl. f_equal. lia.
Qed.

End Primitives.

Section Numerals.

Lemma trimStart_head (s : list N) h r :
  trimStart s = h :: r → isWhiteSpace h = false.
Proof.
  induction s as [|c s IH]; simpl; [done|].
  destruct (isWhiteSpace c) eqn:E; [done|]. by intros [= <- _].
Qed.

Lemma trimStart_suffix (s : list N) : ∃ w, s = w ++ trimStart s.
Proof.
  induction s as [|c s [w IH]]; simpl; [by exists []|].
  destruct (isWhiteSpace c); [|by exists []].
  exists (c :: w). simpl. by f_equal.
Qed.

(** A trimmed text has no white space left at its start. *)
Lemma trimStart_trim (s : list N) : trimStart (trim s) = trim s.
Proof.
  unfold trim, trimEnd.
  destruct (trimStart_suffix (rev (trimStart s))) as [w Hw].
  assert (trimStart s = rev (trimStart (rev (trimStart s))) ++ rev w) as Hu.
  { rewrite <- rev_app_distr, <- Hw. by rewrite rev_involutive. }
  remember (rev (trimStart (rev (trimStart s)))) as t eqn:Et. clear Et Hw.
  destruct t as [|h r]; [done|].
  simpl. by rewrite (trimStart_head s h (r ++ rev w)).
Qed.

Lemma digitValue_decimal_unit (c : N) :
  isDecimal c → digitValue 10 c = Some (c - 48)%N.
Proof.
  intros [Hlo Hhi]. unfold digitValue.
  replace (48 <=? c)%N with true by (symmetry; by apply N.leb_le).
  replace (c <=? 57)%N with true by (symmetry; by apply N.leb_le).
  simpl. replace (c - 48 <? 10)%N with true; [done|].
  symmetry. apply N.ltb_lt. lia.
Qed.

Lemma digitValue_not_decimal (c : N) :
  ¬ isDecimal c → digitValue 10 c = None.
Proof.
  intros Hno. unfold digitValue, isDecimal in *.
  destruct (N.leb_spec 48 c), (N.leb_spec c 57); simpl; try lia;
    destruct (N.leb_spec 97 c), (N.leb_spec c 122); simpl; try done;
    try (destruct (N.ltb_spec (c - 87) 10); [lia|done]);
    destruct (N.leb_spec 65 c), (N.leb_spec c 90); simpl; try done;
    try (destruct (N.ltb_spec (c - 55) 10); [lia|done]).
Qed.

Lemma parseDigits_decimal (s : list N) :
  Forall isDecimal s → ∀ acc,
  parseDigits 10 acc s
  = match s with
    | [] => acc
    | _ => Some (fold_left (λ a c, a * 10 + (c - 48))%N s (default 0%N acc))
    end.
Proof.
  induction 1 as [|c s Hc Hs IH]; intros acc; [done|].
  cbn [parseDigits]. rewrite (digitValue_decimal_unit c Hc), IH.
  destruct s; reflexivity.
Qed.

(** [parseInt] reads a decimal integer string as the number it writes. *)
Lemma parseInt_decimal (s : list N) :
  isDecimalString s → parseInt s = Some (Z.of_N (decimalValue s)).
Proof.
  intros [Hne Hs]. unfold parseInt. rewrite (trimStart_decimal s Hs).
  destruct s as [|c s]; [done|].
  apply Forall_cons in Hs as Hcs. destruct Hcs as [Hc Hs'].
  assert ((c =? 43) || (c =? 45) = false)%N as ->.
  { destruct Hc. apply orb_false_intro; apply N.eqb_neq; lia. }
  assert ((match c :: s with
           | z :: x :: r =>
               if ((z =? 48) && ((x =? 120) || (x =? 88)))%N
               then (16%N, r) else (10%N, c :: s)
           | _ => (10%N, c :: s)
           end) = (10%N, c :: s)) as ->.
  { destruct s as [|x r]; [done|].
    apply Forall_cons in Hs' as [[] _].
    assert ((x =? 120) || (x =? 88) = false)%N as ->
      by (apply orb_false_intro; apply N.eqb_neq; lia).
    by rewrite andb_false_r. }
  rewrite (parseDigits_decimal (c :: s) Hs None).
  assert ((c =? 45) = false)%N as -> by (destruct Hc; apply N.eqb_neq; lia).
  unfold decimalValue. f_equal. simpl default. lia.
Qed.

(** [parseInt] of a text that starts with a minus sign is not positive. *)
Lemma parseInt_minus (r : list N) :
  match parseInt (45%N :: r) with
  | Some z => z <= 0
  | None => True
  end.
Proof.
  unfold parseInt. change (trimStart (45%N :: r)) with (45%N :: r). cbv beta iota zeta.
  change (45 =? 45)%N with true. change ((45 =? 43) || true)%N with true. cbv iota.
  match goal with |- context [let '(_, _) := ?x in _] => destruct x as [R S2] end.
  destruct (parseDigits R None S2) as [m|]; [lia | done].
Qed.

(** [parseInt] of a text that does not start with a number is NaN. *)
Lemma parseInt_without_number (s : list N) :
  trimStart s = s → startsWithoutNumber s → parseInt s = None.
Proof.
  intros Htrim Hno. unfold parseInt. rewrite Htrim.
  destruct s as [|c s]; [done|]. unfold startsWithoutNumber in Hno.
  destruct ((c =? 43) || (c =? 45))%N.
  - destruct s as [|d s]; [by destruct (c =? 45)%N|].
    assert (d ≠ 48%N) as Hd by (intros ->; apply Hno; unfold isDecimal; lia).
    assert ((match d :: s with
             | z :: x :: r =>
                 if ((z =? 48) && ((x =? 120) || (x =? 88)))%N
                 then (16%N, r) else (10%N, d :: s)
             | _ => (10%N, d :: s)
             end) = (10%N, d :: s)) as ->.
    { destruct s; [done|].
      by replace (d =? 48)%N with false by (symmetry; by apply N.eqb_neq). }
    cbn [parseDigits]. by rewrite (digitValue_not_decimal d Hno).
  - assert (c ≠ 48%N) as Hc by (intros ->; apply Hno; unfold isDecimal; lia).
    assert ((match c :: s with
             | z :: x :: r =>
                 if ((z =? 48) && ((x =? 120) || (x =? 88)))%N
                 then (16%N, r) else (10%N, c :: s)
             | _ => (10%N, c :: s)
             end) = (10%N, c :: s)) as ->.
    { destruct s; [done|].
      by replace (c =? 48)%N with false by (symmetry; by apply N.eqb_neq). }
    cbn [parseDigits]. by rewrite (digitValue_not_decimal c Hno).
Qed.

End Numerals.

(* ================================================================== *)
(** * Frame rules of the monad *)
(* ================================================================== *)

Section Frame.
Context {T K : Type} `{!Host T K} `{!Runtime T}.
Implicit Types (st : state T K) (R : relation (state T K)).

#[global] Instance agree_on_preorder {B} (f : state T K → B) : PreOrder (agree_on f).
Proof.
  split; [done|]. unfold agree_on. intros st1 st2 st3 H12 H23. congruence.
Qed.

#[global] Instance same_dirs_preorder : PreOrder (same_dirs (T:=T) (K:=K)).
Proof.
  split; [done|]. unfold same_dirs. intros st1 st2 st3 H12 H23 p.
  by rewrite H23, H12.
Qed.

Lemma bind_inv {A B} (c : M T K A) (f : A → M T K B) st o st' :
  (c ≫= f) st = (o, st') →
  match c st with
  | (Return a, st1) => f a st1 = (o, st')
  | (Throw e, st1) => o = Throw e ∧ st' = st1
  end.
Proof.
  unfold mbind, M_bind. destruct (c st) as [[a|e] st1]; [done|].
  by intros [= <- <-].
Qed.

Lemma preserves_ret {A} R `{!Reflexive R} (a : A) : preserves R (mret a).
Proof. intros st o st' [= <- <-]. reflexivity. Qed.

Lemma preserves_throw {A} R `{!Reflexive R} e : preserves R (throw (A:=A) e).
Proof. intros st o st' [= <- <-]. reflexivity. Qed.

Lemma preserves_gets {A} R `{!Reflexive R} (f : state T K → A) : preserves R (gets f).
Proof. intros st o st' [= <- <-]. reflexivity. Qed.

Lemma preserves_modify R (f : state T K → state T K) :
  (∀ st, R st (f st)) → preserves R (modify f).
Proof. intros Hf st o st' [= <- <-]. apply Hf. Qed.

Lemma preserves_bind {A B} R `{!Transitive R} (c : M T K A) (f : A → M T K B) :
  preserves R c → (∀ a, preserves R (f a)) → preserves R (c ≫= f).
Proof.
  intros Hc Hf st o st' Hrun. apply bind_inv in Hrun.
  destruct (c st) as [[a|e] st1] eqn:Ec.
  - transitivity st1; [by eapply Hc | by eapply Hf].
  - destruct Hrun as [-> ->]. by eapply Hc.
Qed.

Lemma preserves_try_catch {A} R `{!Transitive R} (c : M T K A) h :
  preserves R c → (∀ e, preserves R (h e)) → preserves R (try_catch c h).
Proof.
  intros Hc Hh st o st'. unfold try_catch.
  destruct (c st) as [[a|e] st1] eqn:Ec.
  - intros [= <- <-]. by eapply Hc.
  - intros Hrun. transitivity st1; [by eapply Hc | by eapply Hh].
Qed.

Lemma preserves_try_finally {A} R `{!Transitive R} (c : M T K A) fin :
  preserves R c → preserves R fin → preserves R (try_finally c fin).
Proof.
  intros Hc Hfin st o st'. unfold try_finally.
  destruct (c st) as [o1 st1] eqn:Ec. destruct (fin st1) as [[[]|e] st2] eqn:Ef.
  all: intros [= <- <-]; transitivity st1; [by eapply Hc | by eapply Hfin].
Qed.

Lemma preserves_forOf {A} R `{!PreOrder R} (l : list A) (body : A → M T K unit) :
  (∀ x, preserves R (body x)) → preserves R (forOf l body).
Proof.
  intros Hbody. induction l as [|x l IH]; simpl.
  - apply preserves_ret; apply _.
  - apply preserves_bind; [apply _ | apply Hbody | done].
Qed.

Lemma preserves_any_throw {A} R (c : M T K A) :
  preserves R c → preserves_on_throw R c.
Proof. intros Hc st e st'. apply Hc. Qed.

Lemma on_throw_bind {A B} R `{!Transitive R} (c : M T K A) (f : A → M T K B) :
  preserves R c → (∀ a, preserves_on_throw R (f a)) →
  preserves_on_throw R (c ≫= f).
Proof.
  intros Hc Hf st e' st' Hrun. apply bind_inv in Hrun.
  destruct (c st) as [[a|e] st1] eqn:Ec.
  - transitivity st1; [by eapply Hc | by eapply Hf].
  - destruct Hrun as [_ ->]. by eapply Hc.
Qed.

Lemma on_throw_modify R (f : state T K → state T K) : preserves_on_throw R (modify f).
Proof. by intros st e st'. Qed.

(** A control field or the cache is not what [fs] and the logger write. *)
Lemma agree_on_same_dirs st st' : agree_on files st st' → same_dirs st st'.
Proof. unfold agree_on, same_dirs. by intros ->. Qed.

End Frame.

(** Unfold the monad down to matches on the state. *)
Ltac unfold_monad :=
  unfold mbind, M_bind, mret, M_ret, gets, modify, throw, try_catch,
    try_finally, logger, await in *.

(** Walk through a method along its syntax.  Leaves that write the state
    are closed by computation, calls of other methods by the hints. *)
Create HintDb frame discriminated.

Ltac frame_leaf :=
  intros; first [ reflexivity | done | apply agree_on_same_dirs; reflexivity ].

Ltac frame :=
  repeat first
    [ progress intros
    | progress cbv zeta
    | solve [eauto 2 with frame]
    | apply preserves_bind; [apply _ | |]
    | apply preserves_ret; apply _
    | apply preserves_throw; apply _
    | apply preserves_gets; apply _
    | apply preserves_try_catch; [apply _ | |]
    | apply preserves_try_finally; [apply _ | |]
    | apply preserves_forOf; [apply _ |]
    | apply preserves_modify; solve [frame_leaf]
    | match goal with
      | |- preserves _ (match ?x with _ => _ end) => destruct x
      end ].

(** The same walk for what a throw leaves behind. *)
Ltac frame_throw :=
  repeat first
    [ progress intros
    | progress cbv zeta
    | apply on_throw_modify
    | apply preserves_any_throw; solve [frame]
    | apply on_throw_bind; [apply _ | solve [frame] |]
    | match goal with
      | |- preserves_on_throw _ (match ?x with _ => _ end) => destruct x
      end ].

(* ================================================================== *)
(** * Lemmas on the methods *)
(* ================================================================== *)

Section Methods.
Context {T K : Type} `{!Host T K} `{!Runtime T}.
Implicit Types (st : state T K) (scriptData : K) (R : relation (state T K)).

(** ** The logger and [fs] *)

Lemma preserves_logger R l msg a :
  (∀ st e, R st (add_log e st)) → preserves R (logger (T:=T) (K:=K) l msg a).
Proof. intros HR. apply preserves_modify. intros st. apply HR. Qed.

Lemma logger_cache l msg a : preserves (agree_on scriptsCache) (logger (T:=T) (K:=K) l msg a).
Proof. by apply preserves_logger. Qed.
Lemma logger_control l msg a : preserves (agree_on control) (logger (T:=T) (K:=K) l msg a).
Proof. by apply preserves_logger. Qed.
Lemma logger_files l msg a : preserves (agree_on files) (logger (T:=T) (K:=K) l msg a).
Proof. by apply preserves_logger. Qed.
Lemma logger_dirs l msg a :
  preserves (same_dirs (T:=T) (K:=K)) (logger (T:=T) (K:=K) l msg a).
Proof. by apply preserves_logger. Qed.

Lemma writeFile_run p data st :
  writeFile p data st
  = if decide (files st !! p = Some Dir)
    then (Throw (SystemError "EISDIR" p), st)
    else (Return tt, set_files (insert p (File data)) st).
Proof.
  unfold writeFile. unfold_monad.
  destruct (files st !! p) as [[c|]|] eqn:E; by case_decide.
Qed.

Lemma writeFile_dirs p data : preserves same_dirs (writeFile (T:=T) (K:=K) p data).
Proof.
  intros st o st'. rewrite writeFile_run. case_decide as Hp; intros [= <- <-]; [done|].
  intros q. simpl. destruct (decide (p = q)) as [<-|Hne].
  - rewrite lookup_insert_eq. naive_solver.
  - by rewrite lookup_insert_ne.
Qed.

Lemma unlink_dirs p : preserves same_dirs (unlink (T:=T) (K:=K) p).
Proof.
  intros st o st'. unfold unlink. unfold_monad.
  destruct (files st !! p) as [[c|]|] eqn:E; intros [= <- <-]; try done.
  intros q. simpl. destruct (decide (p = q)) as [<-|Hne].
  - rewrite lookup_delete_eq. naive_solver.
  - by rewrite lookup_delete_ne.
Qed.

Lemma writeFile_cache p data : preserves (agree_on scriptsCache) (writeFile (T:=T) (K:=K) p data).
Proof. unfold writeFile. frame. Qed.
Lemma writeFile_control p data : preserves (agree_on control) (writeFile (T:=T) (K:=K) p data).
Proof. unfold writeFile. frame. Qed.
Lemma unlink_cache p : preserves (agree_on scriptsCache) (unlink (T:=T) (K:=K) p).
Proof. unfold unlink. frame. Qed.
Lemma unlink_control p : preserves (agree_on control) (unlink (T:=T) (K:=K) p).
Proof. unfold unlink. frame. Qed.

(** [readFileSync], [access], [existsSync] and [toISOString] change
    nothing. *)
Lemma readFileSync_same R `{!Reflexive R} p : preserves R (readFileSync (T:=T) (K:=K) p).
Proof.
  intros st o st'. unfold readFileSync. unfold_monad.
  destruct (files st !! p) as [[c|]|]; intros [= <- <-]; reflexivity.
Qed.

Lemma access_same R `{!Reflexive R} p : preserves R (access (T:=T) (K:=K) p).
Proof.
  intros st o st'. unfold access. unfold_monad.
  destruct (files st !! p); intros [= <- <-]; reflexivity.
Qed.

Lemma existsSync_same R `{!Reflexive R} p : preserves R (existsSync (T:=T) (K:=K) p).
Proof. apply preserves_gets; apply _. Qed.

Lemma toISOString_same R `{!Reflexive R} d : preserves R (toISOString (T:=T) (K:=K) d).
Proof. destruct d; [apply preserves_throw | apply preserves_ret]; apply _. Qed.

End Methods.

#[global] Hint Resolve logger_cache logger_control logger_files logger_dirs
  writeFile_dirs unlink_dirs writeFile_cache writeFile_control
  unlink_cache unlink_control : frame.
#[global] Hint Extern 1 (preserves _ (readFileSync _)) =>
  apply readFileSync_same; apply _ : frame.
#[global] Hint Extern 1 (preserves _ (access _)) =>
  apply access_same; apply _ : frame.
#[global] Hint Extern 1 (preserves _ (existsSync _)) =>
  apply existsSync_same; apply _ : frame.
#[global] Hint Extern 1 (preserves _ (toISOString _)) =>
  apply toISOString_same; apply _ : frame.

Section Activation.
Context {T K : Type} `{!Host T K} `{!Runtime T}.
Implicit Types (st : state T K) (scriptData : K) (R : relation (state T K)).

Lemma writeScriptFile_run filePath script st :
  writeScriptFile filePath script st
  = if decide (files st !! filePath = Some Dir)
    then (Throw (Error ("Failed to write script file " +:+ filePath +:+ ": "
                        +:+ error_message (SystemError "EISDIR" filePath))), st)
    else (Return tt, set_files (insert filePath (File script)) st).
Proof. unfold writeScriptFile, try_catch. rewrite writeFile_run. by case_decide. Qed.

Lemma writeScriptFile_cache filePath script :
  preserves (agree_on scriptsCache) (writeScriptFile (T:=T) (K:=K) filePath script).
Proof. unfold writeScriptFile. frame. Qed.

Lemma writeScriptFile_control filePath script :
  preserves (agree_on control) (writeScriptFile (T:=T) (K:=K) filePath script).
Proof. unfold writeScriptFile. frame. Qed.

Lemma writeScriptFile_dirs filePath script :
  preserves same_dirs (writeScriptFile (T:=T) (K:=K) filePath script).
Proof. unfold writeScriptFile. frame. Qed.

Lemma require_cache_same filePath :
  preserves (agree_on scriptsCache) (require (K:=K) filePath).
Proof. unfold require. frame. Qed.

Lemma require_control filePath :
  preserves (agree_on control) (require (K:=K) filePath).
Proof. unfold require. frame. Qed.

Lemma require_files filePath :
  preserves (agree_on files) (require (K:=K) filePath).
Proof. unfold require. frame. Qed.

Lemma defaultOrSelf_same R `{!Reflexive R} m :
  preserves R (defaultOrSelf (K:=K) m).
Proof. unfold defaultOrSelf. frame. Qed.

End Activation.

#[global] Hint Resolve writeScriptFile_cache writeScriptFile_control
  writeScriptFile_dirs require_cache_same require_control require_files : frame.
#[global] Hint Extern 1 (preserves _ (defaultOrSelf _)) =>
  apply defaultOrSelf_same; apply _ : frame.

Section ActivationFacts.
Context {T K : Type} `{!Host T K} `{!Runtime T}.
Implicit Types (st : state T K) (scriptData : K).

(** A throw inside the [try] block of [loadOrUpdateScript] leaves the
    cache as it was: the cache is written by the last statement of the
    block and by nothing before it. *)
Lemma loadOrUpdateScript_try_throw scriptData key filePath :
  preserves_on_throw (agree_on scriptsCache)
    (loadOrUpdateScript_try scriptData key filePath).
Proof. unfold loadOrUpdateScript_try. frame_throw. Qed.

Lemma loadOrUpdateScript_try_control scriptData key filePath :
  preserves (agree_on control) (loadOrUpdateScript_try scriptData key filePath).
Proof. unfold loadOrUpdateScript_try. frame. Qed.

(** After the write nothing in the block touches the file system. *)
Lemma loadOrUpdateScript_try_files scriptData key filePath st o st' :
  loadOrUpdateScript_try scriptData key filePath st = (o, st') →
  files st' = if decide (files st !! filePath = Some Dir) then files st
              else <[filePath := File (getScriptText scriptData)]> (files st).
Proof.
  unfold loadOrUpdateScript_try. intros Hrun.
  apply bind_inv in Hrun; simpl in Hrun.
  apply bind_inv in Hrun. rewrite writeScriptFile_run in Hrun.
  case_decide as Hdir; [by destruct Hrun as [_ ->]|].
  match type of Hrun with
  | ?c ?s = _ =>
      assert (preserves (agree_on files) c) as Hrest by frame;
      apply Hrest in Hrun
  end.
  by rewrite Hrun.
Qed.

(** [require] on a path that is not in the module cache evaluates the
    file. *)
Lemma require_run filePath text st :
  require_cache st !! filePath = None →
  files st !! filePath = Some (File text) →
  require filePath st
  = match evalModule text with
    | Some m => (Return m, set_require_cache (insert filePath m) st)
    | None => (Throw (Thrown "module"), st)
    end.
Proof.
  intros Hrc Hfile. unfold require, readFileSync. unfold_monad. simpl.
  rewrite Hrc, Hfile. by destruct (evalModule text).
Qed.

Lemma defaultOrSelf_run (m : module_value T) st :
  defaultOrSelf m st
  = match entryPoint m with
    | Some c => (Return c, st)
    | None => (Throw (TypeError "Cannot read properties of undefined (reading 'default')"), st)
    end.
Proof.
  unfold defaultOrSelf, entryPoint. unfold_monad.
  destruct (exports m); [done|..]; by destruct (exports_default m).
Qed.

(** With the artifact written, the block ends by what the text yields:
    the entry is put in the cache, or the block throws. *)
Lemma loadOrUpdateScript_try_outcome scriptData key filePath st o st' :
  files st !! filePath ≠ Some Dir →
  loadOrUpdateScript_try scriptData key filePath st = (o, st') →
  match constructed (getScriptText scriptData) with
  | Some instance =>
      o = Return tt
      ∧ scriptsCache st' = <[key := Instance_ scriptData instance]> (scriptsCache st)
  | None => ∃ e, o = Throw e
  end.
Proof.
  intros Hdir Hrun. unfold loadOrUpdateScript_try in Hrun.
  apply bind_inv in Hrun; simpl in Hrun.
  apply bind_inv in Hrun. rewrite writeScriptFile_run, decide_False in Hrun by done.
  apply bind_inv in Hrun; simpl in Hrun.
  apply bind_inv in Hrun; simpl in Hrun.
  apply bind_inv in Hrun.
  match type of Hrun with
  | match ?c ?s with _ => _ end =>
      assert (∃ st2, c s = (Return tt, st2)
                     ∧ require_cache st2 !! filePath = None
                     ∧ files st2 !! filePath = Some (File (getScriptText scriptData))
                     ∧ scriptsCache st2 = scriptsCache st)
        as (st2 & Estep & Hrc & Hfile & Hcache)
  end.
  { case_bool_decide as Hin; eexists; (split; [done|]); simpl.
    - split_and!; [apply lookup_delete_eq | apply lookup_insert_eq | done].
    - split_and!; [by apply eq_None_not_Some | apply lookup_insert_eq | done]. }
  rewrite Estep in Hrun. clear Estep.
  apply bind_inv in Hrun. rewrite (require_run _ _ _ Hrc Hfile) in Hrun.
  unfold constructed.
  destruct (evalModule (getScriptText scriptData)) as [m|];
    [|destruct Hrun as [-> _]; by eexists].
  apply bind_inv in Hrun. rewrite defaultOrSelf_run in Hrun.
  destruct (entryPoint m) as [c|]; [|destruct Hrun as [-> _]; by eexists].
  destruct c as [| | |[instance|]]; unfold_monad; simplify_eq; simpl;
    try by eexists.
  by rewrite Hcache.
Qed.

Lemma loadOrUpdateScript_returns scriptData st :
  (loadOrUpdateScript scriptData st).1 = Return tt.
Proof.
  unfold loadOrUpdateScript, try_catch.
  by destruct (loadOrUpdateScript_try _ _ _ st) as [[[]|e] st1].
Qed.

Lemma loadOrUpdateScript_control scriptData :
  preserves (agree_on control) (loadOrUpdateScript scriptData).
Proof.
  unfold loadOrUpdateScript. apply preserves_try_catch; [apply _| |frame].
  apply loadOrUpdateScript_try_control.
Qed.

Lemma loadOrUpdateScript_files scriptData st :
  files (loadOrUpdateScript scriptData st).2
  = if decide (files st !! artifact scriptData = Some Dir) then files st
    else <[artifact scriptData := File (getScriptText scriptData)]> (files st).
Proof.
  unfold loadOrUpdateScript, try_catch, artifact.
  destruct (loadOrUpdateScript_try _ _ _ st) as [[[]|e] st1] eqn:Erun;
    apply loadOrUpdateScript_try_files in Erun; by rewrite <- Erun.
Qed.

Lemma loadOrUpdateScript_dirs scriptData :
  preserves same_dirs (loadOrUpdateScript scriptData).
Proof.
  intros st o st' Hrun. pose proof (loadOrUpdateScript_files scriptData st) as Hf.
  rewrite Hrun in Hf. simpl in Hf. intros q. rewrite Hf.
  case_decide as Hdir; [done|].
  destruct (decide (artifact scriptData = q)) as [<-|Hne].
  - rewrite lookup_insert_eq. naive_solver.
  - by rewrite lookup_insert_ne.
Qed.

Lemma loadOrUpdateScript_throw_cache scriptData st e st1 :
  loadOrUpdateScript_try scriptData (getScriptKey scriptData)
    (pluginPath (getFileName scriptData)) st = (Throw e, st1) →
  scriptsCache (loadOrUpdateScript scriptData st).2 = scriptsCache st.
Proof.
  intros Hrun. unfold loadOrUpdateScript, try_catch. rewrite Hrun. simpl.
  by apply loadOrUpdateScript_try_throw in Hrun.
Qed.

(** C2.  A failed activation, that is a throw anywhere in the [try]
    block of [loadOrUpdateScript] (the write fails, the module cannot
    be loaded, it exports no constructor, the constructor throws),
    leaves the whole cache as it was, and with it the entry under the
    record's key: [get] answers as before. *)
Theorem failed_activation_keeps_cache scriptData st e st1 :
  loadOrUpdateScript_try scriptData (getScriptKey scriptData)
    (pluginPath (getFileName scriptData)) st = (Throw e, st1) →
  scriptsCache (loadOrUpdateScript scriptData st).2 = scriptsCache st
  ∧ (∀ key, get key (loadOrUpdateScript scriptData st).2 = get key st)
  ∧ (loadOrUpdateScript scriptData st).1 = Return tt.
Proof.
  intros Hrun.
  pose proof (loadOrUpdateScript_throw_cache scriptData st e st1 Hrun) as Hc.
  split_and!; [done | | apply loadOrUpdateScript_returns].
  intros key. unfold get. by rewrite Hc.
Qed.

(** A successful activation puts the new instance under the record's
    key, over whatever was there. *)
Lemma activation_caches_instance scriptData st instance :
  files st !! artifact scriptData ≠ Some Dir →
  constructed (getScriptText scriptData) = Some instance →
  scriptsCache (loadOrUpdateScript scriptData st).2
  = <[getScriptKey scriptData := Instance_ scriptData instance]> (scriptsCache st)
  ∧ get (getScriptKey scriptData) (loadOrUpdateScript scriptData st).2 = Some instance.
Proof.
  intros Hdir Hok. unfold loadOrUpdateScript, try_catch. fold (artifact scriptData).
  destruct (loadOrUpdateScript_try _ _ _ st) as [o st1] eqn:Erun.
  pose proof (loadOrUpdateScript_try_outcome _ _ _ _ _ _ Hdir Erun) as Hout.
  rewrite Hok in Hout. destruct Hout as [-> Hcache]. simpl.
  split; [done|]. unfold get. by rewrite Hcache, lookup_insert_eq.
Qed.

(** C10.  When the artifact is written and the text then yields no
    instance (the module does not load, or it loads and exports nothing
    that is a function, or [new] on its export throws), the artifact
    holds the text of the failing record while the cache holds what it
    held: an entry cached under the record's key stays, next to an
    artifact it was not built from. *)
Theorem failed_activation_leaves_new_artifact scriptData st :
  files st !! artifact scriptData ≠ Some Dir →
  constructed (getScriptText scriptData) = None →
  let st' := (loadOrUpdateScript scriptData st).2 in
  files st' !! artifact scriptData = Some (File (getScriptText scriptData))
  ∧ scriptsCache st' = scriptsCache st
  ∧ get (getScriptKey scriptData) st' = get (getScriptKey scriptData) st.
Proof.
  intros Hdir Hnone st'.
  destruct (loadOrUpdateScript_try scriptData (getScriptKey scriptData)
              (artifact scriptData) st) as [o st1] eqn:Erun.
  pose proof (loadOrUpdateScript_try_outcome _ _ _ _ _ _ Hdir Erun) as Hout.
  rewrite Hnone in Hout. destruct Hout as [e ->].
  pose proof (loadOrUpdateScript_throw_cache scriptData st e st1 Erun) as Hc.
  subst st'. rewrite loadOrUpdateScript_files. rewrite decide_False by done.
  rewrite lookup_insert_eq. unfold get. by rewrite Hc.
Qed.

End ActivationFacts.

Section Removal.
Context {T K : Type} `{!Host T K} `{!Runtime T}.
Implicit Types (st : state T K) (scriptData : K).

Lemma removeScriptFile_cache filePath :
  preserves (agree_on scriptsCache) (removeScriptFile (T:=T) (K:=K) filePath).
Proof. unfold removeScriptFile. frame. Qed.

Lemma removeScriptFile_control filePath :
  preserves (agree_on control) (removeScriptFile (T:=T) (K:=K) filePath).
Proof. unfold removeScriptFile. frame. Qed.

Lemma removeScriptFile_dirs filePath :
  preserves same_dirs (removeScriptFile (T:=T) (K:=K) filePath).
Proof. unfold removeScriptFile. frame. Qed.

(** What [removeScriptFile] does to the file system, by what sits at
    the path. *)
Lemma removeScriptFile_run filePath st :
  match files st !! filePath with
  | Some (File _) =>
      (removeScriptFile filePath st).1 = Return tt
      ∧ files (removeScriptFile filePath st).2 = delete filePath (files st)
  | Some Dir =>
      removeScriptFile filePath st = (Throw (SystemError "EISDIR" filePath), st)
  | None =>
      (removeScriptFile filePath st).1 = Return tt
      ∧ files (removeScriptFile filePath st).2 = files st
  end.
Proof.
  unfold removeScriptFile, access, unlink. unfold_monad. simpl.
  destruct (files st !! filePath) as [[c|]|] eqn:E; simpl; rewrite ?E; simpl;
    try done; by case_bool_decide.
Qed.

Lemma removeScript_control scriptData :
  preserves (agree_on control) (removeScript scriptData).
Proof. unfold removeScript. pose proof removeScriptFile_control. frame. Qed.

Lemma removeScript_dirs scriptData :
  preserves same_dirs (removeScript scriptData).
Proof. unfold removeScript. pose proof removeScriptFile_dirs. frame. Qed.

(** [removeScript] throws exactly when the artifact cannot be
    unlinked, and then it has changed nothing but the log. *)
Lemma removeScript_throws scriptData st :
  files st !! artifact scriptData = Some Dir →
  removeScript scriptData st
  = (Throw (SystemError "EISDIR" (artifact scriptData)), st).
Proof.
  intros Hdir. unfold removeScript. cbv zeta. fold (artifact scriptData).
  pose proof (removeScriptFile_run (artifact scriptData) st) as Hrun.
  rewrite Hdir in Hrun. unfold mbind, M_bind. by rewrite Hrun.
Qed.

Lemma removeScript_run scriptData st :
  files st !! artifact scriptData ≠ Some Dir →
  (removeScript scriptData st).1 = Return tt
  ∧ files (removeScript scriptData st).2 = delete (artifact scriptData) (files st)
  ∧ scriptsCache (removeScript scriptData st).2
    = delete (getScriptKey scriptData) (scriptsCache st).
Proof.
  intros Hdir. unfold removeScript. cbv zeta. fold (artifact scriptData).
  pose proof (removeScriptFile_run (artifact scriptData) st) as Hrun.
  destruct (removeScriptFile (artifact scriptData) st) as [o st1] eqn:Efile.
  assert (scriptsCache st1 = scriptsCache st) as Hcache
    by (by apply removeScriptFile_cache in Efile).
  assert (o = Return tt ∧ files st1 = delete (artifact scriptData) (files st))
    as [-> Hfiles].
  { destruct (files st !! artifact scriptData) as [[c|]|] eqn:E; simpl in Hrun;
      [done | done |].
    destruct Hrun as [-> ->]. split; [done|]. by rewrite delete_id. }
  unfold_monad. rewrite Efile. simpl.
  case_bool_decide as Hin; simpl; rewrite Hfiles, Hcache; [done|].
  split_and!; [done | done |]. rewrite delete_id; [done|].
  rewrite <- Hcache. by apply eq_None_not_Some.
Qed.

(** C7.  When [removeScript] completes, no file is left at the path of
    the record's artifact (a file that was there is unlinked, and the
    rest of the file system is as it was) and no entry is left under
    the record's key, so that [get] answers [null]; and when there was
    no artifact the removal does complete, with the file system
    unchanged. *)
Theorem removal_clears_artifact_and_cache scriptData st :
  ((removeScript scriptData st).1 = Return tt →
     files (removeScript scriptData st).2 !! artifact scriptData = None
     ∧ files (removeScript scriptData st).2 = delete (artifact scriptData) (files st)
     ∧ scriptsCache (removeScript scriptData st).2
       = delete (getScriptKey scriptData) (scriptsCache st)
     ∧ get (getScriptKey scriptData) (removeScript scriptData st).2 = None)
  ∧ (files st !! artifact scriptData = None →
       (removeScript scriptData st).1 = Return tt
       ∧ files (removeScript scriptData st).2 = files st).
Proof.
  split.
  - intros Hdone.
    assert (files st !! artifact scriptData ≠ Some Dir) as Hdir.
    { intros Hdir. by rewrite (removeScript_throws _ _ Hdir) in Hdone. }
    destruct (removeScript_run scriptData st Hdir) as (_ & Hfiles & Hcache).
    split_and!; [| done | done |].
    + rewrite Hfiles. apply lookup_delete_eq.
    + unfold get. rewrite Hcache. by rewrite lookup_delete_eq.
  - intros Habsent.
    destruct (removeScript_run scriptData st) as (Hdone & Hfiles & _);
      [by rewrite Habsent|].
    split; [done|]. rewrite Hfiles. by apply delete_id.
Qed.

End Removal.

Section Routing.
Context {T K : Type} `{!Host T K} `{!Runtime T}.
Implicit Types (st : state T K) (scriptData : K).

Lemma processScriptUpdate_control scriptData :
  preserves (agree_on control) (processScriptUpdate scriptData).
Proof.
  unfold processScriptUpdate.
  pose proof loadOrUpdateScript_control. pose proof removeScript_control. frame.
Qed.

Lemma processScriptUpdate_dirs scriptData :
  preserves same_dirs (processScriptUpdate scriptData).
Proof.
  unfold processScriptUpdate.
  pose proof loadOrUpdateScript_dirs. pose proof removeScript_dirs. frame.
Qed.

(** A record is processed to the end unless it is on the removal path
    with an artifact that cannot be unlinked. *)
Lemma processScriptUpdate_returns scriptData st :
  ¬ undeletable st scriptData →
  (processScriptUpdate scriptData st).1 = Return tt.
Proof.
  intros Hok. unfold processScriptUpdate.
  destruct (isActiveScript scriptData) eqn:Ea; [apply loadOrUpdateScript_returns|].
  destruct (isObsoletedScript scriptData) eqn:Eo; [|done].
  apply removeScript_run. intros Hdir. by apply Hok.
Qed.

Lemma processScriptUpdate_throws scriptData st :
  undeletable st scriptData →
  processScriptUpdate scriptData st
  = (Throw (SystemError "EISDIR" (artifact scriptData)), st).
Proof.
  intros (Ea & Eo & Hdir). unfold processScriptUpdate. rewrite Ea, Eo.
  by apply removeScript_throws.
Qed.

(** C8.  A record the host calls active goes down the activation path
    whatever the obsolete predicate answers for it, the host's or any
    other in its place; the removal path is taken when the record is
    not active and is obsolete; a record that is neither leaves the
    state, cache and file system included, as it was. *)
Theorem active_takes_precedence scriptData st :
  (isActiveScript scriptData = true →
     ∀ obs : K → bool,
       processScriptUpdate (Host0 := with_obsolete obs) scriptData st
       = loadOrUpdateScript scriptData st)
  ∧ (isActiveScript scriptData = false → isObsoletedScript scriptData = true →
       processScriptUpdate scriptData st = removeScript scriptData st)
  ∧ (isActiveScript scriptData = false → isObsoletedScript scriptData = false →
       processScriptUpdate scriptData st = (Return tt, st)).
Proof.
  split_and!.
  - intros Ea obs. unfold processScriptUpdate. simpl. by rewrite Ea.
  - intros Ea Eo. unfold processScriptUpdate. by rewrite Ea, Eo.
  - intros Ea Eo. unfold processScriptUpdate. by rewrite Ea, Eo.
Qed.

End Routing.

Section AnchorStore.
Context {T K : Type} `{!Host T K} `{!Runtime T}.
Implicit Types (st : state T K) (a : Date).

Lemma saveLastUpdateTimestamp_returns a st :
  (saveLastUpdateTimestamp a st).1 = Return tt.
Proof.
  unfold saveLastUpdateTimestamp, try_catch.
  match goal with |- context [match ?c st with _ => _ end] =>
    by destruct (c st) as [[[]|e] st1] end.
Qed.

Lemma saveLastUpdateTimestamp_control a :
  preserves (agree_on control) (saveLastUpdateTimestamp (K:=K) a).
Proof. unfold saveLastUpdateTimestamp. frame. Qed.

Lemma saveLastUpdateTimestamp_cache a :
  preserves (agree_on scriptsCache) (saveLastUpdateTimestamp (K:=K) a).
Proof. unfold saveLastUpdateTimestamp. frame. Qed.

(** The write comes first: the file holds the value even when the
    statement after it throws. *)
Lemma saveLastUpdateTimestamp_files a st :
  files (saveLastUpdateTimestamp a st).2
  = if decide (files st !! timestampFile = Some Dir) then files st
    else <[timestampFile := persisted a]> (files st).
Proof.
  unfold saveLastUpdateTimestamp, try_catch.
  match goal with |- context [match ?c st with _ => _ end] =>
    destruct (c st) as [o st1] eqn:Erun end.
  apply bind_inv in Erun. rewrite writeFile_run in Erun.
  case_decide as Hdir.
  - destruct Erun as [-> ->]. done.
  - match type of Erun with
    | ?c ?s = _ =>
        assert (preserves (agree_on files) c) as Hrest by frame;
        apply Hrest in Erun
    end.
    destruct o as [[]|e]; simpl; by rewrite Erun.
Qed.

(** What [loadLastUpdateTimestamp] returns, by what it finds. *)
Lemma loadLastUpdateTimestamp_run clean st :
  (loadLastUpdateTimestamp clean st).1
  = Return (if clean then new_Date 0
            else match files st !! timestampFile with
                 | Some (File c) =>
                     match parseInt (trim c) with
                     | Some n => if (0 <? n) && (n <=? maxTime)
                                 then TimeValue n else new_Date 0
                     | None => new_Date 0
                     end
                 | _ => new_Date 0
                 end).
Proof.
  unfold loadLastUpdateTimestamp, loadLastUpdateTimestamp_try.
  unfold existsSync, readFileSync, toISOString. unfold_monad.
  destruct clean; simpl; [done|].
  destruct (files st !! timestampFile) as [[c|]|] eqn:Efile; simpl; rewrite ?Efile;
    simpl; try done.
  destruct (parseInt (trim c)) as [n|]; simpl; [|done].
  destruct (Z.ltb_spec 0 n) as [Hpos|Hneg]; simpl; [|done].
  unfold new_Date. rewrite Z.abs_eq by lia.
  by destruct (n <=? maxTime).
Qed.

(** C6, as amended.  [loadLastUpdateTimestamp] always returns a date
    and never throws.  It is the epoch when [clean] is set, when no
    file sits at the timestamp path, when the trimmed content does not
    start with a number or starts with a minus sign, and when it is a
    decimal integer string that writes 0 or a number above the largest
    time value a [Date] can hold; it is the date of the number when
    the trimmed content is a decimal integer string that writes a
    number from 1 to that largest value.  Nothing is said of a content
    in which other text follows a leading number. *)
Theorem load_yields_persisted_or_epoch clean st :
  (∃ d, (loadLastUpdateTimestamp clean st).1 = Return d)
  ∧ (clean = true ∨ files st !! timestampFile = None →
     (loadLastUpdateTimestamp clean st).1 = Return (new_Date 0))
  ∧ (∀ c, clean = false → files st !! timestampFile = Some (File c) →
       (startsWithoutNumber (trim c) →
        (loadLastUpdateTimestamp clean st).1 = Return (new_Date 0))
       ∧ (∀ r, trim c = 45%N :: r →
          (loadLastUpdateTimestamp clean st).1 = Return (new_Date 0))
       ∧ (isDecimalString (trim c) →
          let n := Z.of_N (decimalValue (trim c)) in
          (loadLastUpdateTimestamp clean st).1
          = Return (if (0 <? n) && (n <=? maxTime) then new_Date n
                    else new_Date 0))).
Proof.
  rewrite loadLastUpdateTimestamp_run. split_and!.
  - eauto.
  - intros [->| ->]; [done|]. by destruct clean.
  - intros c -> ->. split_and!.
    + intros Hno. by rewrite (parseInt_without_number _ (trimStart_trim c) Hno).
    + intros r Hr. rewrite Hr. pose proof (parseInt_minus r) as Hle.
      destruct (parseInt (45%N :: r)) as [z|]; [|done].
      by replace (0 <? z) with false by (symmetry; apply Z.ltb_ge; lia).
    + intros Hdec n. rewrite (parseInt_decimal _ Hdec). fold n.
      destruct (Z.ltb_spec 0 n) as [Hpos|Hneg]; simpl; [|done].
      destruct (Z.leb_spec n maxTime) as [Hle|Hgt]; [|done].
      unfold new_Date. rewrite Z.abs_eq by lia.
      by replace (n <=? maxTime) with true by (symmetry; apply Z.leb_le; lia).
Qed.

(** C9.  A time at or after the epoch that is saved to a timestamp
    path the file system lets the loader write is what a later load
    without reset returns. *)
Theorem save_then_load_roundtrip t st :
  0 <= t <= maxTime →
  files st !! timestampFile ≠ Some Dir →
  (loadLastUpdateTimestamp false (saveLastUpdateTimestamp (TimeValue t) st).2).1
  = Return (TimeValue t).
Proof.
  intros Ht Hdir. rewrite loadLastUpdateTimestamp_run.
  rewrite saveLastUpdateTimestamp_files, decide_False by done.
  rewrite lookup_insert_eq. unfold persisted. simpl getTime.
  rewrite Number_toString_nonneg by lia.
  rewrite trim_decimal by apply digits_decimal.
  rewrite parseInt_digits, Z2N.id by lia.
  destruct (Z.ltb_spec 0 t) as [Hpos|Hzero]; simpl.
  - by replace (t <=? maxTime) with true by (symmetry; apply Z.leb_le; lia).
  - by replace t with 0 by lia.
Qed.

End AnchorStore.

#[global] Hint Resolve saveLastUpdateTimestamp_control saveLastUpdateTimestamp_cache : frame.

Section Cycle.
Context {T K : Type} `{!Host T K} `{!Runtime T}.
Implicit Types (st : state T K) (src : source K) (l : list K).

Lemma forOf_control l :
  preserves (agree_on control) (forOf l (processScriptUpdate (T:=T))).
Proof. apply preserves_forOf; [apply _|]. apply processScriptUpdate_control. Qed.

Lemma forOf_dirs l :
  preserves same_dirs (forOf l (processScriptUpdate (T:=T))).
Proof. apply preserves_forOf; [apply _|]. apply processScriptUpdate_dirs. Qed.

Lemma undeletable_same_dirs st st' scriptData :
  same_dirs st st' → undeletable st' scriptData → undeletable st scriptData.
Proof. unfold undeletable. intros Hd (? & ? & ?). split_and!; [done..|]. by apply Hd. Qed.

(** The loop runs to its end when no record of the batch is on the
    removal path with an artifact that cannot be unlinked. *)
Lemma forOf_returns l : ∀ st,
  (∀ scriptData, scriptData ∈ l → ¬ undeletable st scriptData) →
  (forOf l processScriptUpdate st).1 = Return tt.
Proof.
  induction l as [|x l IH]; intros st Hok; [done|]. simpl. unfold mbind, M_bind.
  pose proof (processScriptUpdate_returns x st) as Hx.
  destruct (processScriptUpdate x st) as [o st1] eqn:Ex. simpl in Hx.
  rewrite Hx by (apply Hok; left). apply IH. intros y Hy Hbad.
  apply (Hok y); [by right|]. apply processScriptUpdate_dirs in Ex.
  by eapply undeletable_same_dirs.
Qed.

Lemma loadLatestScripts_try_run src st :
  loadLatestScripts_try src st
  = match src (anchor st) with
    | Rejected e => (Throw e, st)
    | Resolved l =>
        if (0 <? length l)%nat then
          match forOf l processScriptUpdate st with
          | (Return _, st2) =>
              saveLastUpdateTimestamp (getNextAnchor l) (set_anchor (getNextAnchor l) st2)
          | (Throw e, st2) => (Throw e, st2)
          end
        else (Return tt, st)
    end.
Proof.
  unfold loadLatestScripts_try. unfold_monad. simpl.
  destruct (src (anchor st)) as [l|e]; simpl; [|done].
  destruct (0 <? length l)%nat; [|done].
  by destruct (forOf l processScriptUpdate st) as [[[]|e] st2].
Qed.

Lemma loadLatestScripts_exit_run (o : outcome unit) st :
  loadLatestScripts_exit o st = (Return tt, set_isLoading false (caught (o, st))).
Proof. unfold loadLatestScripts_exit. unfold_monad. by destruct o as [[]|e]. Qed.

(** One call of [loadLatestScripts]: dropped at the guard, or the [try]
    block followed by the [catch] and [finally] clauses. *)
Lemma loadLatestScripts_run src st :
  loadLatestScripts src st
  = (Return tt,
     if isLoading st then add_log busy_entry st
     else set_isLoading false
            (caught (loadLatestScripts_try src (set_isLoading true st)))).
Proof.
  unfold loadLatestScripts. unfold_monad. simpl.
  destruct (isLoading st); [done|].
  by destruct (loadLatestScripts_try src (set_isLoading true st)) as [[[]|e] st1].
Qed.

Lemma cycle_run src st :
  cycle st src
  = if isLoading st then add_log busy_entry st
    else set_isLoading false
           (caught (loadLatestScripts_try src (set_isLoading true st))).
Proof. unfold cycle. by rewrite loadLatestScripts_run. Qed.

(** The anchor after a cycle is the anchor before it or
    [getNextAnchor] of the non-empty batch the source answered. *)
Lemma cycle_anchor src st :
  anchor (cycle st src) = anchor st
  ∨ ∃ l, src (anchor st) = Resolved l ∧ l ≠ []
         ∧ anchor (cycle st src) = getNextAnchor l.
Proof.
  rewrite cycle_run. destruct (isLoading st); [by left|].
  rewrite loadLatestScripts_try_run.
  change (anchor (set_isLoading true st)) with (anchor st).
  destruct (src (anchor st)) as [l|e] eqn:Esrc; [|by left].
  destruct l as [|x l]; [by left|]. simpl Nat.ltb. cbv iota.
  destruct (forOf (x :: l) processScriptUpdate (set_isLoading true st))
    as [[[]|e] st2] eqn:Eloop; apply forOf_control in Eloop;
    unfold agree_on, control in Eloop; simpl in Eloop.
  - right. exists (x :: l). split_and!; [done..|].
    destruct (saveLastUpdateTimestamp _ _) as [o st3] eqn:Esave.
    apply saveLastUpdateTimestamp_control in Esave.
    unfold agree_on, control in Esave. simpl in Esave.
    destruct o as [[]|e]; simpl; congruence.
  - left. simpl. congruence.
Qed.

Lemma cycle_clears_flag src st :
  isLoading st = false → isLoading (cycle st src) = false.
Proof. intros Hidle. by rewrite cycle_run, Hidle. Qed.

(** A batch that starts with a removal whose artifact cannot be
    unlinked: the cycle is over after that record, and all it has done
    is log the failure. *)
Lemma failed_removal_ends_cycle src st scriptData l :
  isLoading st = false →
  src (anchor st) = Resolved (scriptData :: l) →
  undeletable st scriptData →
  cycle st src
  = add_log (failed_entry (SystemError "EISDIR" (artifact scriptData))) st.
Proof.
  intros Hidle Hsrc Hbad. rewrite cycle_run, Hidle, loadLatestScripts_try_run.
  change (anchor (set_isLoading true st)) with (anchor st). rewrite Hsrc.
  simpl Nat.ltb. cbv iota. simpl forOf. unfold mbind, M_bind.
  rewrite processScriptUpdate_throws by done.
  destruct st; simpl in *. by subst.
Qed.

(** C5.  When the source answers the empty list the cycle changes
    neither the cache, nor the file system (no artifact is written or
    unlinked, the timestamp file is not rewritten), nor the anchor,
    nor the module cache; the flag is back to what it was, and a loader
    at rest ends in the very state it started in. *)
Theorem empty_batch_changes_nothing src st :
  src (anchor st) = Resolved [] →
  scriptsCache (cycle st src) = scriptsCache st
  ∧ files (cycle st src) = files st
  ∧ anchor (cycle st src) = anchor st
  ∧ require_cache (cycle st src) = require_cache st
  ∧ isLoading (cycle st src) = isLoading st
  ∧ (isLoading st = false → cycle st src = st).
Proof.
  intros Hsrc. rewrite cycle_run.
  destruct (isLoading st) eqn:Hbusy; [done|].
  rewrite loadLatestScripts_try_run. simpl anchor. rewrite Hsrc. simpl.
  split_and!; try done. intros _. destruct st; simpl in *. by subst.
Qed.

Lemma Date_le_trans a b c : Date_le a b → Date_le b c → Date_le a c.
Proof. destruct a, b, c; simpl; try done. lia. Qed.

Lemma Date_le_valid a b : Date_le a b → ∃ t, b = TimeValue t.
Proof. destruct a, b; simpl; try done. eauto. Qed.

(** Under the contract the anchor after a run of cycles is not before
    the anchor the run started from. *)
Lemma run_cycles_monotone position srcs : ∀ st t,
  anchor st = TimeValue t →
  contract_kept position srcs st →
  Date_le (anchor st) (anchor (run_cycles srcs st)).
Proof.
  induction srcs as [|src srcs IH]; intros st t Hvalid Hkept.
  - simpl. rewrite Hvalid. simpl. lia.
  - destruct Hkept as [Hhere Hrest]. unfold run_cycles in *. simpl.
    destruct (cycle_anchor src st) as [Hsame|(l & Hsrc & Hne & Hnext)].
    + rewrite <- Hsame. eapply IH; [|done]. by rewrite Hsame.
    + destruct (Hhere l Hsrc Hne) as [_ Hle]. rewrite <- Hnext in Hle.
      destruct (Date_le_valid _ _ Hle) as [t' Ht'].
      eapply Date_le_trans; [done|]. by eapply IH.
Qed.

Lemma contract_kept_app position srcs1 srcs2 : ∀ st,
  contract_kept position (srcs1 ++ srcs2) st →
  contract_kept position srcs1 st
  ∧ contract_kept position srcs2 (run_cycles srcs1 st).
Proof.
  induction srcs1 as [|src srcs1 IH]; intros st; [done|].
  simpl. intros [Hhere Hrest]. destruct (IH _ Hrest) as [H1 H2]. done.
Qed.

(** After a cycle on a non-empty batch that the loop got through, the
    anchor is [getNextAnchor] of the batch, and the timestamp file
    holds it unless a directory sits at its path. *)
Lemma cycle_advances src st l :
  isLoading st = false →
  src (anchor st) = Resolved l → l ≠ [] →
  (∀ scriptData, scriptData ∈ l → ¬ undeletable st scriptData) →
  anchor (cycle st src) = getNextAnchor l
  ∧ (files st !! timestampFile ≠ Some Dir →
     files (cycle st src) !! timestampFile = Some (persisted (getNextAnchor l))).
Proof.
  intros Hidle Hsrc Hne Hok. rewrite cycle_run, Hidle.
  rewrite loadLatestScripts_try_run.
  change (anchor (set_isLoading true st)) with (anchor st). rewrite Hsrc.
  destruct l as [|x l]; [done|]. simpl Nat.ltb. cbv iota.
  pose proof (forOf_returns (x :: l) (set_isLoading true st) Hok) as Hloop.
  destruct (forOf (x :: l) processScriptUpdate (set_isLoading true st))
    as [o st2] eqn:Eloop. simpl in Hloop. subst o.
  apply forOf_dirs in Eloop.
  pose proof (saveLastUpdateTimestamp_returns (getNextAnchor (x :: l))
                (set_anchor (getNextAnchor (x :: l)) st2)) as Hret.
  pose proof (saveLastUpdateTimestamp_files (getNextAnchor (x :: l))
                (set_anchor (getNextAnchor (x :: l)) st2)) as Hfiles.
  destruct (saveLastUpdateTimestamp _ _) as [o st3] eqn:Esave.
  simpl in Hret, Hfiles. subst o.
  apply saveLastUpdateTimestamp_control in Esave.
  unfold agree_on, control in Esave. simpl in Esave.
  split; [simpl; congruence|].
  intros Hdir. simpl. rewrite Hfiles, decide_False.
  - apply lookup_insert_eq.
  - intros Hd. apply Hdir. by apply (Eloop timestampFile).
Qed.

(** When a directory sits at the timestamp path the write throws, the
    [catch] clause logs the error, and the call returns. *)
Lemma saveLastUpdateTimestamp_failed a st :
  files st !! timestampFile = Some Dir →
  saveLastUpdateTimestamp a st
  = (Return tt, add_log (save_failed_entry (SystemError "EISDIR" timestampFile)) st).
Proof.
  intros Hdir. unfold saveLastUpdateTimestamp, try_catch.
  match goal with |- context [match ?c st with _ => _ end] =>
    destruct (c st) as [o st1] eqn:Erun end.
  apply bind_inv in Erun. rewrite writeFile_run, decide_True in Erun by done.
  destruct Erun as [-> ->]. reflexivity.
Qed.

(** A cycle whose save fails ends with the failure as the last entry
    of the log, and leaves the directory where it was. *)
Lemma cycle_logs_failed_save src st l :
  isLoading st = false →
  src (anchor st) = Resolved l → l ≠ [] →
  (∀ scriptData, scriptData ∈ l → ¬ undeletable st scriptData) →
  files st !! timestampFile = Some Dir →
  last (logged (cycle st src))
  = Some (save_failed_entry (SystemError "EISDIR" timestampFile))
  ∧ files (cycle st src) !! timestampFile = Some Dir.
Proof.
  intros Hidle Hsrc Hne Hok Hdir. rewrite cycle_run, Hidle.
  rewrite loadLatestScripts_try_run.
  change (anchor (set_isLoading true st)) with (anchor st). rewrite Hsrc.
  destruct l as [|x l]; [done|]. simpl Nat.ltb. cbv iota.
  pose proof (forOf_returns (x :: l) (set_isLoading true st) Hok) as Hloop.
  destruct (forOf (x :: l) processScriptUpdate (set_isLoading true st))
    as [o st2] eqn:Eloop. simpl in Hloop. subst o.
  apply forOf_dirs in Eloop.
  assert (files st2 !! timestampFile = Some Dir) as Hdir2
    by (by apply (Eloop timestampFile)).
  rewrite (saveLastUpdateTimestamp_failed _ (set_anchor _ st2)) by done.
  simpl. split; [|done]. by rewrite last_snoc.
Qed.

(** C4, as amended.  Under the contract of [getNextAnchor] the anchor
    never moves back along a run of cycles.  After a cycle on a
    non-empty batch in which no record on the removal path has an
    artifact that cannot be unlinked, the anchor is [getNextAnchor] of
    the batch; the timestamp file holds that value when the file
    system lets the loader write it; and when the write fails, the
    failure is the last entry of the log, the path holds what it held,
    and the anchor in memory has advanced all the same. *)
Theorem anchor_monotone_and_advanced (position : K → Date) :
  (∀ srcs1 srcs2 st t,
      anchor st = TimeValue t →
      contract_kept position (srcs1 ++ srcs2) st →
      Date_le (anchor (run_cycles srcs1 st))
              (anchor (run_cycles (srcs1 ++ srcs2) st)))
  ∧ (∀ src st l,
      isLoading st = false →
      src (anchor st) = Resolved l → l ≠ [] →
      (∀ scriptData, scriptData ∈ l → ¬ undeletable st scriptData) →
      anchor (cycle st src) = getNextAnchor l
      ∧ (files st !! timestampFile ≠ Some Dir →
         files (cycle st src) !! timestampFile
         = Some (persisted (getNextAnchor l)))
      ∧ (files st !! timestampFile = Some Dir →
         last (logged (cycle st src))
         = Some (save_failed_entry (SystemError "EISDIR" timestampFile))
         ∧ files (cycle st src) !! timestampFile = Some Dir
         ∧ anchor (cycle st src) = getNextAnchor l)).
Proof.
  split.
  2: { intros src st l Hidle Hsrc Hne Hok.
       destruct (cycle_advances src st l Hidle Hsrc Hne Hok) as [Ha Hf].
       split_and!; [done|done|]. intros Hdir.
       destruct (cycle_logs_failed_save src st l Hidle Hsrc Hne Hok Hdir).
       done. }
  intros srcs1 srcs2 st t Hvalid Hkept.
  destruct (contract_kept_app _ _ _ _ Hkept) as [H1 H2].
  pose proof (run_cycles_monotone position srcs1 st t Hvalid H1) as Hle1.
  destruct (Date_le_valid _ _ Hle1) as [t1 Ht1].
  unfold run_cycles at 2. rewrite foldl_app. fold (run_cycles srcs1 st).
  by eapply run_cycles_monotone.
Qed.

End Cycle.

Section Guard.
Context {T K : Type} `{!Host T K} `{!Runtime T}.
Implicit Types (s : system T K) (st : state T K) (src : source K).

(** ** The loader the constructor builds *)

Lemma ensurePluginsDirectory_flag directory clean :
  preserves (agree_on isLoading) (ensurePluginsDirectory (T:=T) (K:=K) directory clean).
Proof. unfold ensurePluginsDirectory. frame. Qed.

Lemma loadLastUpdateTimestamp_flag clean :
  preserves (agree_on isLoading) (loadLastUpdateTimestamp (K:=K) clean).
Proof. unfold loadLastUpdateTimestamp, loadLastUpdateTimestamp_try. frame. Qed.

(** The constructor leaves the flag down: the scheduler starts from a
    loader at rest. *)
Lemma new_loader_at_rest clean fs rc :
  isLoading (new_BaseScriptLoader clean fs rc) = false.
Proof.
  unfold new_BaseScriptLoader, startWatching.
  match goal with |- isLoading (?c ?s).2 = _ =>
    assert (preserves (agree_on isLoading) c) as Hc;
    [|destruct (c s) as [o st'] eqn:Erun; by apply Hc in Erun]
  end.
  pose proof ensurePluginsDirectory_flag. pose proof loadLastUpdateTimestamp_flag.
  frame.
Qed.

(** Whatever the timestamp file holds, the loader starts from a valid
    anchor at or after the epoch. *)
Lemma loadLastUpdateTimestamp_valid clean st :
  ∃ t, (loadLastUpdateTimestamp clean st).1 = Return (TimeValue t)
       ∧ 0 <= t <= maxTime.
Proof.
  rewrite loadLastUpdateTimestamp_run.
  assert (∃ t, new_Date 0 = TimeValue t ∧ 0 <= t <= maxTime) as (t0 & E0 & H0)
    by (exists 0; by vm_compute).
  destruct clean; [exists t0; by rewrite E0|].
  destruct (files st !! timestampFile) as [[c|]|]; try (exists t0; by rewrite E0).
  destruct (parseInt (trim c)) as [n|]; [|exists t0; by rewrite E0].
  destruct (Z.ltb_spec 0 n), (Z.leb_spec n maxTime); simpl;
    try (exists t0; by rewrite E0).
  exists n. split; [done|lia].
Qed.

Lemma enter_run s :
  enter s = if isLoading (loader s)
            then System (add_log busy_entry (loader s)) (inflight s)
            else System (set_isLoading true (loader s))
                        (inflight s ++ [AwaitFetch (anchor (loader s))]).
Proof. done. Qed.

Lemma enter_one_in_flight s : one_in_flight s → one_in_flight (enter s).
Proof.
  rewrite enter_run. intros [[Hnone Hidle]|(t & Hone & Hbusy)].
  - rewrite Hidle, Hnone. right. by eexists.
  - rewrite Hbusy. right. by exists t.
Qed.

Lemma resume_fetch_one_in_flight a src st t :
  isLoading st = true →
  one_in_flight (continue 0 (resume_fetch a src st) (System st [t])).
Proof.
  intros Hbusy. unfold resume_fetch.
  destruct (src a) as [l|e]; simpl; [|by left].
  destruct (0 <? length l)%nat; [|by left]. right. by eexists.
Qed.

Lemma resume_batch_one_in_flight rest whole st t :
  isLoading st = true →
  one_in_flight (continue 0 (resume_batch rest whole st) (System st [t])).
Proof.
  intros Hbusy. unfold resume_batch. destruct rest as [|item rest].
  - match goal with |- context [let '(_, _) := ?c ?x in _] =>
      destruct (c x) as [o st1] end.
    rewrite loadLatestScripts_exit_run. by left.
  - destruct (processScriptUpdate item st) as [[[]|e] st1] eqn:Eitem.
    + apply processScriptUpdate_control in Eitem.
      unfold agree_on, control in Eitem. right. eexists. split; [done|].
      simpl. congruence.
    + rewrite loadLatestScripts_exit_run. by left.
Qed.

Lemma step_one_in_flight s e : one_in_flight s → one_in_flight (step s e).
Proof.
  intros Hinv. destruct e as [| | |i src|i]; simpl.
  - destruct (watchInterval (loader s)); [by apply enter_one_in_flight | done].
  - apply enter_one_in_flight. destruct Hinv as [?|(t & ? & ?)]; [by left|].
    right. by exists t.
  - unfold stopWatching. unfold_monad.
    destruct Hinv as [?|(t & ? & ?)]; destruct (watchInterval (loader s));
      simpl; first [by left | right; by exists t].
  - destruct Hinv as [[Hnone Hidle]|(t & Hone & Hbusy)].
    + rewrite Hnone. simpl. by left.
    + rewrite Hone. destruct i as [|i]; simpl; [|right; by exists t].
      destruct t as [a|rest whole]; [|right; by eexists].
      destruct s as [st ts]. simpl in *. subst ts.
      by apply resume_fetch_one_in_flight.
  - destruct Hinv as [[Hnone Hidle]|(t & Hone & Hbusy)].
    + rewrite Hnone. simpl. by left.
    + rewrite Hone. destruct i as [|i]; simpl; [|right; by exists t].
      destruct t as [a|rest whole]; [right; by eexists|].
      destruct s as [st ts]. simpl in *. subst ts.
      by apply resume_batch_one_in_flight.
Qed.

Lemma reachable_one_in_flight s : reachable s → one_in_flight s.
Proof.
  induction 1 as [st Hidle|s e _ IH]; [by left | by apply step_one_in_flight].
Qed.

(** The scheduler and the method run in one piece agree: when nothing
    comes in between, the steps of one call end in the state [cycle]
    computes. *)
Lemma run_at_rest n st :
  run (replicate n (Advance 0)) (System st []) = System st [].
Proof. induction n as [|n IH]; [done|]. simpl. apply IH. Qed.

Lemma run_cons e evs s : run (e :: evs) s = run evs (step s e).
Proof. done. Qed.

Lemma step_advance rest whole st :
  step (System st [InBatch rest whole]) (Advance 0)
  = continue 0 (resume_batch rest whole st) (System st [InBatch rest whole]).
Proof. done. Qed.

Lemma step_settle a src st :
  step (System st [AwaitFetch a]) (Settle 0 src)
  = continue 0 (resume_fetch a src st) (System st [AwaitFetch a]).
Proof. done. Qed.

Lemma run_batch rest : ∀ whole st,
  run (replicate (S (length rest)) (Advance 0)) (System st [InBatch rest whole])
  = System
      (set_isLoading false
         (caught
            match forOf rest processScriptUpdate st with
            | (Return _, st2) =>
                saveLastUpdateTimestamp (getNextAnchor whole)
                  (set_anchor (getNextAnchor whole) st2)
            | (Throw e, st2) => (Throw e, st2)
            end)) [].
Proof.
  induction rest as [|item rest IH]; intros whole st.
  - simpl replicate. rewrite run_cons, step_advance.
    unfold continue, resume_batch. unfold_monad. simpl.
    destruct (saveLastUpdateTimestamp _ _) as [o st1]. simpl.
    by destruct o as [[]|e].
  - change (replicate (S (length (item :: rest))) (Advance 0))
      with (Advance (K:=K) 0 :: replicate (S (length rest)) (Advance 0)).
    rewrite run_cons, step_advance. unfold resume_batch.
    simpl forOf. unfold mbind, M_bind.
    destruct (processScriptUpdate item st) as [[[]|e] st1]; unfold continue;
      simpl snd; simpl fst; cbv iota.
    + apply IH.
    + simpl. apply run_at_rest.
Qed.

Lemma schedule_runs_cycle src st :
  isLoading st = false →
  run (Settle 0 src :: replicate (S (length (batch_at src (anchor st)))) (Advance 0))
      (enter (System st []))
  = System (cycle st src) [].
Proof.
  intros Hidle. rewrite enter_run, cycle_run. simpl loader. simpl inflight.
  rewrite Hidle. simpl app. rewrite run_cons, step_settle.
  rewrite loadLatestScripts_try_run.
  change (anchor (set_isLoading true st)) with (anchor st).
  unfold resume_fetch, batch_at.
  destruct (src (anchor st)) as [l|e]; simpl await; unfold_monad.
  - destruct l as [|x l].
    + unfold continue. simpl. apply (run_at_rest 1).
    + change (0 <? length (x :: l))%nat with true. cbv iota.
      unfold continue. simpl snd. simpl fst. cbv iota.
      change (<[0%nat:=InBatch (x :: l) (x :: l)]> [AwaitFetch (anchor st)])
        with [InBatch (x :: l) (x :: l)].
      apply run_batch.
  - unfold continue. simpl. apply (run_at_rest 1).
Qed.


End Guard.

(* ================================================================== *)
(** * What a record does to the loader, field by field *)
(* ================================================================== *)

Section Paths.
Context {T K : Type} `{!Host T K}.

Lemma append_inj_l (s a b : string) : s +:+ a = s +:+ b → a = b.
Proof. induction s as [|c s IH]; simpl; [done|]. intros [= H]. by apply IH. Qed.

Lemma append_assoc (s a b : string) : (s +:+ a) +:+ b = s +:+ a +:+ b.
Proof.
  induction s as [|c s IH]; [done|].
  change (String c ((s +:+ a) +:+ b) = String c (s +:+ a +:+ b)). by f_equal.
Qed.

Lemma prefix_append (s a b : string) :
  String.prefix (s +:+ a) (s +:+ b) = String.prefix a b.
Proof.
  induction s as [|c s IH]; simpl; [done|].
  destruct (ascii_dec c c) as [_|Hne]; [apply IH | done].
Qed.

(** No file name makes an artifact path the path of the timestamp file,
    and the timestamp file is not inside the plugins directory. *)
Lemma artifact_not_timestampFile (fileName : string) :
  pluginPath fileName ≠ timestampFile.
Proof. unfold pluginPath, timestampFile. intros H. by apply append_inj_l in H. Qed.

Lemma timestampFile_not_under_plugins : ¬ under pluginsDirectory timestampFile.
Proof.
  unfold under, pluginsDirectory, timestampFile. intros [H|H].
  - by apply append_inj_l in H.
  - rewrite append_assoc, prefix_append in H. done.
Qed.

End Paths.

Section Effects.
Context {T K : Type} `{!Host T K} `{!Runtime T}.
Implicit Types (st : state T K) (scriptData : K).

(** The module cache after the [try] block of [loadOrUpdateScript]: the
    entry of the path is the module just evaluated, or gone. *)
Lemma loadOrUpdateScript_try_modules scriptData key filePath st o st' :
  files st !! filePath ≠ Some Dir →
  loadOrUpdateScript_try scriptData key filePath st = (o, st') →
  require_cache st'
  = match evalModule (getScriptText scriptData) with
    | Some m => <[filePath := m]> (require_cache st)
    | None => delete filePath (require_cache st)
    end.
Proof.
  intros Hdir Hrun. unfold loadOrUpdateScript_try in Hrun.
  apply bind_inv in Hrun; simpl in Hrun.
  apply bind_inv in Hrun. rewrite writeScriptFile_run, decide_False in Hrun by done.
  apply bind_inv in Hrun; simpl in Hrun.
  apply bind_inv in Hrun; simpl in Hrun.
  apply bind_inv in Hrun.
  match type of Hrun with
  | match ?c ?s with _ => _ end =>
      assert (∃ st2, c s = (Return tt, st2)
                     ∧ require_cache st2 = delete filePath (require_cache st)
                     ∧ files st2 !! filePath = Some (File (getScriptText scriptData)))
        as (st2 & Estep & Hrc & Hfile)
  end.
  { case_bool_decide as Hin; eexists; (split; [done|]); simpl.
    - split; [done | apply lookup_insert_eq].
    - split; [|apply lookup_insert_eq]. symmetry. apply delete_id.
      by apply eq_None_not_Some. }
  rewrite Estep in Hrun. clear Estep.
  apply bind_inv in Hrun.
  rewrite (require_run filePath (getScriptText scriptData) st2) in Hrun;
    [|rewrite Hrc; apply lookup_delete_eq | done].
  destruct (evalModule (getScriptText scriptData)) as [m|];
    [|destruct Hrun as [_ ->]; done].
  assert (preserves (agree_on require_cache)
            (defaultOrSelf (K:=K) m ≫= λ ScriptClass,
               match ScriptClass with
               | VFunction (Some instance) =>
                   modify (set_scriptsCache (insert key (Instance_ scriptData instance)))
               | VFunction None => throw (Thrown "constructor")
               | _ => throw (Error ("Script module does not export a constructor: "
                                    +:+ filePath))
               end)) as Hrest by frame.
  apply Hrest in Hrun. unfold agree_on in Hrun. simpl in Hrun.
  by rewrite Hrun, Hrc, insert_delete_eq.
Qed.

(** An activation whose write is refused does nothing but log. *)
Lemma loadOrUpdateScript_blocked scriptData st :
  files st !! artifact scriptData = Some Dir →
  but_log (loadOrUpdateScript scriptData st).2 = but_log st.
Proof.
  intros Hdir. unfold loadOrUpdateScript, loadOrUpdateScript_try, try_catch.
  fold (artifact scriptData). unfold mbind at 1 2, M_bind. simpl.
  by rewrite writeScriptFile_run, decide_True.
Qed.

(** All an activation does, the log apart. *)
Lemma loadOrUpdateScript_effect scriptData st :
  files st !! artifact scriptData ≠ Some Dir →
  but_log (loadOrUpdateScript scriptData st).2
  = (match constructed (getScriptText scriptData) with
     | Some instance =>
         <[getScriptKey scriptData := Instance_ scriptData instance]> (scriptsCache st)
     | None => scriptsCache st
     end,
     anchor st, isLoading st, watchInterval st,
     <[artifact scriptData := File (getScriptText scriptData)]> (files st),
     match evalModule (getScriptText scriptData) with
     | Some m => <[artifact scriptData := m]> (require_cache st)
     | None => delete (artifact scriptData) (require_cache st)
     end).
Proof.
  intros Hdir.
  pose proof (loadOrUpdateScript_files scriptData st) as Hfiles.
  rewrite decide_False in Hfiles by done.
  unfold loadOrUpdateScript, try_catch in *. fold (artifact scriptData) in *.
  destruct (loadOrUpdateScript_try scriptData (getScriptKey scriptData)
              (artifact scriptData) st) as [o st1] eqn:Erun.
  pose proof (loadOrUpdateScript_try_outcome _ _ _ _ _ _ Hdir Erun) as Hout.
  pose proof (loadOrUpdateScript_try_modules _ _ _ _ _ _ Hdir Erun) as Hmod.
  pose proof (loadOrUpdateScript_try_control _ _ _ _ _ _ Erun) as Hctl.
  unfold agree_on, control in Hctl. injection Hctl as Ha Hl Hw.
  assert (scriptsCache st1
          = match constructed (getScriptText scriptData) with
            | Some instance =>
                <[getScriptKey scriptData := Instance_ scriptData instance]> (scriptsCache st)
            | None => scriptsCache st
            end) as Hcache.
  { destruct (constructed (getScriptText scriptData)) as [i|].
    - by destruct Hout as [_ ->].
    - destruct Hout as [e ->]. by apply loadOrUpdateScript_try_throw in Erun. }
  unfold but_log. destruct o as [[]|e]; simpl in *;
    by rewrite Hcache, Ha, Hl, Hw, Hfiles, Hmod.
Qed.

Lemma removeScriptFile_modules filePath st :
  files st !! filePath ≠ Some Dir →
  require_cache (removeScriptFile filePath st).2 = delete filePath (require_cache st).
Proof.
  intros Hdir. unfold removeScriptFile, access, unlink. unfold_monad. simpl.
  destruct (files st !! filePath) as [[c|]|] eqn:E; simpl; rewrite ?E; simpl;
    [| done |]; case_bool_decide as Hin; simpl; try done;
    symmetry; apply delete_id; by apply eq_None_not_Some.
Qed.

(** All a removal does, the log apart. *)
Lemma removeScript_effect scriptData st :
  files st !! artifact scriptData ≠ Some Dir →
  (removeScript scriptData st).1 = Return tt
  ∧ but_log (removeScript scriptData st).2
    = (delete (getScriptKey scriptData) (scriptsCache st),
       anchor st, isLoading st, watchInterval st,
       delete (artifact scriptData) (files st),
       delete (artifact scriptData) (require_cache st)).
Proof.
  intros Hdir. destruct (removeScript_run scriptData st Hdir) as (Hret & Hfiles & Hcache).
  split; [done|].
  pose proof (removeScriptFile_modules (artifact scriptData) st Hdir) as Hmod.
  destruct (removeScript scriptData st) as [o st1] eqn:Erun.
  pose proof (removeScript_control _ _ _ _ Erun) as Hctl.
  unfold agree_on, control in Hctl. injection Hctl as Ha Hl Hw.
  assert (require_cache st1 = require_cache (removeScriptFile (artifact scriptData) st).2)
    as Hrc.
  { unfold removeScript in Erun. cbv zeta in Erun. fold (artifact scriptData) in Erun.
    apply bind_inv in Erun.
    destruct (removeScriptFile (artifact scriptData) st) as [[[]|e] st2];
      [|by destruct Erun as [_ ->]].
    match type of Erun with
    | ?c ?s = _ =>
        assert (preserves (agree_on require_cache) c) as Hrest by frame;
        by apply Hrest in Erun
    end. }
  unfold but_log. simpl in *. by rewrite Hcache, Ha, Hl, Hw, Hfiles, Hrc, Hmod.
Qed.

End Effects.

(* ================================================================== *)
(** * Activation and removal as operations on the cache *)
(* ================================================================== *)

Section HotSwap.
Context {T K : Type} `{!Host T K} `{!Runtime T}.
Implicit Types (st : state T K) (scriptData : K).

(** X2.  Activating a record twice in a row leaves what activating it
    once leaves, the log apart: cache, artifacts and module cache are
    the same, whether the activation succeeds, fails to load or cannot
    write. *)
Theorem activation_idempotent scriptData st :
  but_log (loadOrUpdateScript scriptData (loadOrUpdateScript scriptData st).2).2
  = but_log (loadOrUpdateScript scriptData st).2.
Proof.
  destruct (decide (files st !! artifact scriptData = Some Dir)) as [Hdir|Hdir].
  - pose proof (loadOrUpdateScript_blocked scriptData st Hdir) as H1.
    rewrite loadOrUpdateScript_blocked; [done|].
    unfold but_log in H1. injection H1 as _ _ _ _ Hfiles _. by rewrite Hfiles.
  - pose proof (loadOrUpdateScript_effect scriptData st Hdir) as H1.
    set (st1 := (loadOrUpdateScript scriptData st).2) in *.
    assert (files st1 !! artifact scriptData ≠ Some Dir) as Hdir1.
    { unfold but_log in H1. injection H1 as _ _ _ _ Hfiles _.
      by rewrite Hfiles, lookup_insert_eq. }
    rewrite (loadOrUpdateScript_effect scriptData st1 Hdir1), H1.
    unfold but_log in H1. injection H1 as -> -> -> -> -> ->.
    rewrite insert_insert_eq.
    destruct (constructed (getScriptText scriptData)),
      (evalModule (getScriptText scriptData));
      by rewrite ?insert_insert_eq, ?delete_delete_eq.
Qed.



End HotSwap.

(* ================================================================== *)
(** * What a cycle touches *)
(* ================================================================== *)

Section Batches.
Context {T K : Type} `{!Host T K} `{!Runtime T}.
Implicit Types (st : state T K) (scriptData : K) (src : source K) (l : list K).

(** A record is processed within its own key and its own path. *)
Lemma processScriptUpdate_local scriptData st :
  let st' := (processScriptUpdate scriptData st).2 in
  (∀ k, k ≠ getScriptKey scriptData → scriptsCache st' !! k = scriptsCache st !! k)
  ∧ (∀ q, q ≠ artifact scriptData → files st' !! q = files st !! q).
Proof.
  unfold processScriptUpdate. destruct (isActiveScript scriptData).
  - destruct (decide (files st !! artifact scriptData = Some Dir)) as [Hdir|Hdir].
    + pose proof (loadOrUpdateScript_blocked scriptData st Hdir) as Heff.
      unfold but_log in Heff. injection Heff as Hc _ _ _ Hf _. simpl.
      by rewrite Hc, Hf.
    + pose proof (loadOrUpdateScript_effect scriptData st Hdir) as Heff.
      unfold but_log in Heff. injection Heff as Hc _ _ _ Hf _. simpl.
      rewrite Hc, Hf. split.
      * intros k Hk. destruct (constructed _); [by rewrite lookup_insert_ne | done].
      * intros q Hq. by rewrite lookup_insert_ne.
  - destruct (isObsoletedScript scriptData); [|done].
    destruct (decide (files st !! artifact scriptData = Some Dir)) as [Hdir|Hdir].
    + by rewrite removeScript_throws.
    + destruct (removeScript_effect scriptData st Hdir) as [_ Heff].
      unfold but_log in Heff. injection Heff as Hc _ _ _ Hf _. simpl.
      rewrite Hc, Hf. split.
      * intros k Hk. by rewrite lookup_delete_ne.
      * intros q Hq. by rewrite lookup_delete_ne.
Qed.

Lemma processScriptUpdate_other_key scriptData k :
  getScriptKey scriptData ≠ k →
  preserves (agree_on (λ st, scriptsCache st !! k)) (processScriptUpdate scriptData).
Proof.
  intros Hk st o st' Hrun. destruct (processScriptUpdate_local scriptData st) as [Hc _].
  rewrite Hrun in Hc. by apply Hc.
Qed.

Lemma processScriptUpdate_other_path scriptData q :
  artifact scriptData ≠ q →
  preserves (agree_on (λ st, files st !! q)) (processScriptUpdate scriptData).
Proof.
  intros Hq st o st' Hrun. destruct (processScriptUpdate_local scriptData st) as [_ Hf].
  rewrite Hrun in Hf. by apply Hf.
Qed.

Lemma preserves_forOf_in {A} (R : relation (state T K)) `{!PreOrder R}
    (l : list A) (body : A → M T K unit) :
  (∀ x, x ∈ l → preserves R (body x)) → preserves R (forOf l body).
Proof.
  induction l as [|x l IH]; intros Hbody; simpl.
  - apply preserves_ret; apply _.
  - apply preserves_bind; [apply _ | apply Hbody; left |].
    intros _. apply IH. intros y Hy. apply Hbody. by right.
Qed.

Lemma forOf_app {A} (l1 l2 : list A) (body : A → M T K unit) st :
  forOf (l1 ++ l2) body st
  = match forOf l1 body st with
    | (Return _, st1) => forOf l2 body st1
    | (Throw e, st1) => (Throw e, st1)
    end.
Proof.
  revert st. induction l1 as [|x l1 IH]; intros st; [done|].
  simpl. unfold mbind, M_bind. destruct (body x st) as [[[]|e] st1]; [apply IH | done].
Qed.

(** What every part of a cycle but the loop keeps, the cycle keeps when
    the loop does. *)
Lemma cycle_preserves (R : relation (state T K)) `{!PreOrder R} src st :
  (∀ st e, R st (add_log e st)) →
  (∀ st b, R st (set_isLoading b st)) →
  (∀ st a, R st (set_anchor a st)) →
  (∀ a, preserves R (saveLastUpdateTimestamp (K:=K) a)) →
  (∀ l, src (anchor st) = Resolved l → preserves R (forOf l (processScriptUpdate (T:=T)))) →
  R st (cycle st src).
Proof.
  intros Hlog Hflag Hanchor Hsave Hloop. rewrite cycle_run.
  destruct (isLoading st); [apply Hlog|].
  transitivity (set_isLoading true st); [apply Hflag|].
  etransitivity; [|apply Hflag].
  rewrite loadLatestScripts_try_run.
  change (anchor (set_isLoading true st)) with (anchor st).
  destruct (src (anchor st)) as [l|e] eqn:Esrc; [|apply Hlog].
  destruct (0 <? length l)%nat; [|reflexivity].
  destruct (forOf l processScriptUpdate (set_isLoading true st)) as [[[]|e] st2] eqn:Eloop;
    apply (Hloop l eq_refl) in Eloop.
  - destruct (saveLastUpdateTimestamp _ _) as [o st3] eqn:Es. apply Hsave in Es.
    transitivity st2; [done|]. transitivity (set_anchor (getNextAnchor l) st2);
      [apply Hanchor|]. transitivity st3; [done|].
    destruct o; [reflexivity | apply Hlog].
  - transitivity st2; [done | apply Hlog].
Qed.

Lemma saveLastUpdateTimestamp_other_path a q :
  q ≠ timestampFile →
  preserves (agree_on (λ st, files st !! q)) (saveLastUpdateTimestamp (K:=K) a).
Proof.
  intros Hq st o st' Hrun. pose proof (saveLastUpdateTimestamp_files a st) as Hf.
  rewrite Hrun in Hf. unfold agree_on. simpl in Hf. rewrite Hf.
  case_decide; [done | by rewrite lookup_insert_ne].
Qed.

(** X5.  When the file names of the records of the batch are plain, a
    cycle touches the cache only under the keys of those records, and
    the file system only at their artifact paths and at the timestamp
    file. *)
Theorem cycle_touches_only_its_records src st :
  (∀ l scriptData, src (anchor st) = Resolved l → scriptData ∈ l →
     plainName (getFileName scriptData)) →
  (∀ k, (∀ l scriptData, src (anchor st) = Resolved l → scriptData ∈ l →
           getScriptKey scriptData ≠ k) →
        get k (cycle st src) = get k st)
  ∧ (∀ q, q ≠ timestampFile →
          (∀ l scriptData, src (anchor st) = Resolved l → scriptData ∈ l →
             artifact scriptData ≠ q) →
          files (cycle st src) !! q = files st !! q).
Proof.
  intros _. split.
  - intros k Hkeys.
    assert (agree_on (λ st, scriptsCache st !! k) st (cycle st src)) as Hk.
    { apply cycle_preserves; try done; [apply _ | |].
      - intros a st1 o st2 Hrun. apply saveLastUpdateTimestamp_cache in Hrun.
        unfold agree_on in *. by rewrite Hrun.
      - intros l Hsrc. apply preserves_forOf_in; [apply _|].
        intros d Hd. apply processScriptUpdate_other_key. by eapply Hkeys. }
    unfold get. by rewrite Hk.
  - intros q Hq Hpaths.
    change (agree_on (λ st, files st !! q) st (cycle st src)).
    apply cycle_preserves; try done; [apply _ | |].
    + intros a. by apply saveLastUpdateTimestamp_other_path.
    + intros l Hsrc. apply preserves_forOf_in; [apply _|].
      intros d Hd. apply processScriptUpdate_other_path. by eapply Hpaths.
Qed.

(** X6.  When the source query is rejected the cycle changes nothing
    but the log: cache, file system, anchor, module cache and flags are
    as before, and a loader at rest has just logged the rejection. *)
Theorem rejected_query_changes_nothing src st e :
  src (anchor st) = Rejected e →
  but_log (cycle st src) = but_log st
  ∧ (isLoading st = false → cycle st src = add_log (failed_entry e) st).
Proof.
  intros Hsrc. rewrite cycle_run. destruct (isLoading st) eqn:Hbusy; [done|].
  rewrite loadLatestScripts_try_run.
  change (anchor (set_isLoading true st)) with (anchor st). rewrite Hsrc.
  unfold but_log. simpl. rewrite Hbusy. split; [done|].
  intros _. destruct st; simpl in *. by subst.
Qed.

(** X7.  A removal that is the last record of a batch to bear its key
    stands: after the cycle the cache holds nothing under that key,
    whatever the records before it did to the key, what the loop does
    after that record, and whether it gets to its end.  The file names
    up to that record are plain, and no artifact on the removal path up
    to it is a directory. *)
Theorem last_removal_of_a_key_stands src st l1 scriptData l2 :
  isLoading st = false →
  src (anchor st) = Resolved (l1 ++ scriptData :: l2) →
  (∀ d, d ∈ l1 ++ [scriptData] → plainName (getFileName d)) →
  (∀ d, d ∈ l1 → ¬ undeletable st d) →
  (∀ d, d ∈ l2 → getScriptKey d ≠ getScriptKey scriptData) →
  files st !! artifact scriptData ≠ Some Dir →
  isActiveScript scriptData = false → isObsoletedScript scriptData = true →
  get (getScriptKey scriptData) (cycle st src) = None.
Proof.
  intros Hidle Hsrc _ Hl1 Hl2 Hdir Hinactive Hobsolete.
  set (k := getScriptKey scriptData).
  (* the cache under [k] after the cycle is the cache under [k] after the record *)
  assert (∃ sa, same_dirs (set_isLoading true st) sa
                ∧ scriptsCache (cycle st src) !! k
                  = scriptsCache (processScriptUpdate scriptData sa).2 !! k)
    as (sa & Hdirs & Hcache).
  { rewrite cycle_run, Hidle, loadLatestScripts_try_run.
    change (anchor (set_isLoading true st)) with (anchor st). rewrite Hsrc.
    replace (0 <? length (l1 ++ scriptData :: l2))%nat with true
      by (rewrite length_app; simpl; symmetry; apply Nat.ltb_lt; lia).
    rewrite forOf_app.
    pose proof (forOf_returns l1 (set_isLoading true st) Hl1) as Hret1.
    destruct (forOf l1 processScriptUpdate (set_isLoading true st)) as [o1 sa] eqn:E1.
    simpl in Hret1. subst o1. exists sa. split; [by apply forOf_dirs in E1|].
    simpl forOf. unfold mbind, M_bind.
    destruct (processScriptUpdate scriptData sa) as [[[]|e] sb] eqn:Ed; simpl.
    - destruct (forOf l2 processScriptUpdate sb) as [o2 sc] eqn:E2.
      assert (scriptsCache sc !! k = scriptsCache sb !! k) as Hsc.
      { eapply (preserves_forOf_in (agree_on (λ st, scriptsCache st !! k))); [|done].
        intros d Hd. apply processScriptUpdate_other_key. by apply Hl2. }
      destruct o2 as [[]|e]; simpl; [|done].
      destruct (saveLastUpdateTimestamp _ _) as [o3 sd] eqn:E3.
      apply saveLastUpdateTimestamp_cache in E3. unfold agree_on in E3. simpl in E3.
      destruct o3; simpl; by rewrite E3.
    - done. }
  assert (files sa !! artifact scriptData ≠ Some Dir) as Hdir'.
  { intros Hd. apply Hdir. by apply Hdirs in Hd. }
  unfold get. rewrite Hcache. unfold processScriptUpdate.
  rewrite Hinactive, Hobsolete.
  destruct (removeScript_run scriptData sa Hdir') as (_ & _ & ->).
  by rewrite lookup_delete_eq.
Qed.

(** X8.  The artifacts and the timestamp file never collide: processing
    any batch of records leaves the timestamp file as it was, and saving
    the anchor never throws and leaves everything but the timestamp file
    and the log as it was. *)
Theorem artifacts_and_timestamp_are_separate l a st :
  files (forOf l processScriptUpdate st).2 !! timestampFile = files st !! timestampFile
  ∧ (saveLastUpdateTimestamp a st).1 = Return tt
  ∧ scriptsCache (saveLastUpdateTimestamp a st).2 = scriptsCache st
  ∧ require_cache (saveLastUpdateTimestamp a st).2 = require_cache st
  ∧ control (saveLastUpdateTimestamp a st).2 = control st
  ∧ (∀ q, q ≠ timestampFile →
          files (saveLastUpdateTimestamp a st).2 !! q = files st !! q).
Proof.
  split_and!.
  - destruct (forOf l processScriptUpdate st) as [o st'] eqn:Erun.
    eapply (preserves_forOf_in (agree_on (λ st, files st !! timestampFile))); [|done].
    intros d _. apply processScriptUpdate_other_path. apply artifact_not_timestampFile.
  - apply saveLastUpdateTimestamp_returns.
  - destruct (saveLastUpdateTimestamp a st) as [o st'] eqn:Erun.
    by apply saveLastUpdateTimestamp_cache in Erun.
  - destruct (saveLastUpdateTimestamp a st) as [o st'] eqn:Erun.
    assert (preserves (agree_on require_cache) (saveLastUpdateTimestamp (K:=K) a)) as Hrc
      by (unfold saveLastUpdateTimestamp; frame).
    by apply Hrc in Erun.
  - destruct (saveLastUpdateTimestamp a st) as [o st'] eqn:Erun.
    by apply saveLastUpdateTimestamp_control in Erun.
  - intros q Hq. destruct (saveLastUpdateTimestamp a st) as [o st'] eqn:Erun.
    by apply (saveLastUpdateTimestamp_other_path a q Hq) in Erun.
Qed.


End Batches.

(* ================================================================== *)
(** * Starting, restarting and stopping *)
(* ================================================================== *)

Section Lifecycle.
Context {T K : Type} `{!Host T K} `{!Runtime T}.
Implicit Types (st : state T K) (fs : gmap string node).

(** [loadLastUpdateTimestamp] reads: it changes nothing but the log. *)
Lemma loadLastUpdateTimestamp_reads clean :
  preserves (agree_on but_log) (loadLastUpdateTimestamp (K:=K) clean).
Proof. unfold loadLastUpdateTimestamp, loadLastUpdateTimestamp_try. frame. Qed.

Lemma ensurePluginsDirectory_run clean st :
  (ensurePluginsDirectory "plugins" clean st).1 = Return tt
  ∧ files (ensurePluginsDirectory "plugins" clean st).2 = ensured clean (files st)
  ∧ scriptsCache (ensurePluginsDirectory "plugins" clean st).2 = scriptsCache st
  ∧ require_cache (ensurePluginsDirectory "plugins" clean st).2 = require_cache st
  ∧ control (ensurePluginsDirectory "plugins" clean st).2 = control st.
Proof.
  unfold ensurePluginsDirectory, ensured, existsSync. fold pluginsDirectory.
  unfold_monad. destruct clean; simpl; case_bool_decide; case_decide; done.
Qed.

(** The constructor step by step: the directory, the anchor, the timer. *)
Lemma new_BaseScriptLoader_run clean fs rc :
  ∃ (st1 st2 : state T K) (a : Date),
    files st1 = ensured clean fs ∧ scriptsCache st1 = ∅ ∧ require_cache st1 = rc
    ∧ isLoading st1 = false
    ∧ loadLastUpdateTimestamp clean st1 = (Return a, st2)
    ∧ new_BaseScriptLoader clean fs rc
      = add_log (Logged LLog "Started watching for script changes" [])
          (set_watchInterval true (set_anchor a st2)).
Proof.
  pose (st0 := add_log (Logged LDebug "创建脚本管理器，插件路径:" [AStr scriptDir])
                 (State (T:=T) (K:=K) ∅ (new_Date 0) false false fs rc [])).
  destruct (ensurePluginsDirectory_run clean st0) as (Hret & Hf & Hc & Hr & Hctl).
  destruct (ensurePluginsDirectory "plugins" clean st0) as [o st1] eqn:E1.
  simpl in Hret, Hf, Hc, Hr, Hctl. subst o.
  pose proof (loadLastUpdateTimestamp_run clean st1) as Hload.
  destruct (loadLastUpdateTimestamp clean st1) as [o st2] eqn:E2.
  simpl in Hload. subst o.
  unfold control in Hctl. injection Hctl as _ Hl1 _.
  eexists st1, st2, _. split_and!; try done.
  unfold new_BaseScriptLoader, startWatching. unfold_monad. unfold modify.
  cbv beta iota. subst st0. by rewrite E1, E2.
Qed.

(** The fields of the loader the constructor returns. *)
Lemma new_BaseScriptLoader_fields clean fs rc :
  scriptsCache (new_BaseScriptLoader clean fs rc) = ∅
  ∧ isLoading (new_BaseScriptLoader clean fs rc) = false
  ∧ watchInterval (new_BaseScriptLoader clean fs rc) = true
  ∧ require_cache (new_BaseScriptLoader clean fs rc) = rc
  ∧ files (new_BaseScriptLoader clean fs rc) = ensured clean fs
  ∧ ∀ st1 : state T K, files st1 = ensured clean fs →
      Return (anchor (new_BaseScriptLoader clean fs rc))
      = (loadLastUpdateTimestamp clean st1).1.
Proof.
  destruct (new_BaseScriptLoader_run clean fs rc)
    as (st1 & st2 & a & Hf & Hc & Hr & Hl & E2 & ->).
  pose proof (loadLastUpdateTimestamp_reads _ _ _ _ E2) as Hsame.
  unfold agree_on, but_log in Hsame. injection Hsame as Hc2 Ha2 Hl2 Hw2 Hf2 Hr2.
  simpl. rewrite Hc2, Hc, Hl2, Hl, Hr2, Hr, Hf2, Hf. split_and!; try done.
  intros st1' Hf1'. pose proof (loadLastUpdateTimestamp_run clean st1) as H1.
  rewrite E2 in H1. simpl in H1. rewrite H1, loadLastUpdateTimestamp_run.
  by rewrite Hf, Hf1'.
Qed.

Lemma timestampFile_ensured clean fs :
  ensured clean fs !! timestampFile = fs !! timestampFile.
Proof.
  pose proof timestampFile_not_under_plugins as Hout.
  assert (timestampFile ≠ pluginsDirectory) as Hne by (intros E; apply Hout; by left).
  unfold ensured. destruct clean.
  - assert (filter (λ kv, ¬ under pluginsDirectory kv.1) fs !! timestampFile
            = fs !! timestampFile) as Hfilter.
    { destruct (fs !! timestampFile) as [n|] eqn:E.
      - by apply map_lookup_filter_Some.
      - apply map_lookup_filter_None. left. done. }
    case_decide; [done|]. by rewrite lookup_insert_ne.
  - case_decide; [done|]. by rewrite lookup_insert_ne.
Qed.

Lemma load_of_persisted t st :
  0 <= t <= maxTime →
  files st !! timestampFile = Some (persisted (TimeValue t)) →
  (loadLastUpdateTimestamp false st).1 = Return (TimeValue t).
Proof.
  intros Ht Hfile. rewrite loadLastUpdateTimestamp_run, Hfile.
  unfold persisted. simpl getTime.
  rewrite Number_toString_nonneg by lia.
  rewrite trim_decimal by apply digits_decimal.
  rewrite parseInt_digits, Z2N.id by lia.
  destruct (Z.ltb_spec 0 t) as [Hpos|Hzero]; simpl.
  - by replace (t <=? maxTime) with true by (symmetry; apply Z.leb_le; lia).
  - by replace t with 0 by lia.
Qed.

(** X10.  On a disk where the script directory exists, whatever else
    is on it, the constructor returns a loader with an empty cache
    ([get] answers [null] for every key, also for a key whose artifact
    lies in the plugins directory), the flag down, the timer set, the
    module cache untouched, an anchor that is a valid date at or after
    the epoch, and something at the path of the plugins directory. *)
Theorem constructed_loader_is_fresh clean fs rc :
  fs !! scriptDir = Some Dir →
  let st := new_BaseScriptLoader clean fs rc in
  (∀ k, get k st = None)
  ∧ isLoading st = false
  ∧ watchInterval st = true
  ∧ require_cache st = rc
  ∧ (∃ t, anchor st = TimeValue t ∧ 0 <= t <= maxTime)
  ∧ is_Some (files st !! pluginsDirectory).
Proof.
  intros _ st.
  destruct (new_BaseScriptLoader_fields clean fs rc) as (Hc & Hl & Hw & Hr & Hf & Ha).
  fold st in Hc, Hl, Hw, Hr, Hf, Ha. split_and!; try done.
  - intros k. unfold get. by rewrite Hc, lookup_empty.
  - specialize (Ha st Hf).
    destruct (loadLastUpdateTimestamp_valid clean st) as (t & Ht & Hrange).
    rewrite Ht in Ha. injection Ha as Ha. by exists t.
  - rewrite Hf. unfold ensured. case_decide; [done|]. by rewrite lookup_insert_eq.
Qed.

(** X11.  What the constructor does to a disk on which the script
    directory exists.  Without [clean] it creates the plugins directory
    when nothing is at its path and touches nothing else.  With [clean]
    it starts from the epoch, the plugins directory is an empty
    directory, every path outside it is as it was, and so the timestamp
    file is left on disk, unread. *)
Theorem constructor_on_disk fs rc :
  fs !! scriptDir = Some Dir →
  (let st := new_BaseScriptLoader false fs rc in
   files st = if decide (is_Some (fs !! pluginsDirectory)) then fs
              else <[pluginsDirectory := Dir]> fs)
  ∧ (let st := new_BaseScriptLoader true fs rc in
     anchor st = TimeValue 0
     ∧ files st !! pluginsDirectory = Some Dir
     ∧ (∀ p, under pluginsDirectory p → p ≠ pluginsDirectory → files st !! p = None)
     ∧ (∀ p, ¬ under pluginsDirectory p → files st !! p = fs !! p)
     ∧ files st !! timestampFile = fs !! timestampFile).
Proof.
  intros _. split.
  - intros st.
    destruct (new_BaseScriptLoader_fields false fs rc) as (_ & _ & _ & _ & Hf & _).
    done.
  - intros st.
    destruct (new_BaseScriptLoader_fields true fs rc) as (_ & _ & _ & _ & Hf & Ha).
    fold st in Hf, Ha. specialize (Ha st Hf).
    rewrite loadLastUpdateTimestamp_run in Ha. injection Ha as Ha.
    assert (filter (λ kv, ¬ under pluginsDirectory kv.1) fs !! pluginsDirectory = None)
      as Hgone.
    { apply map_lookup_filter_None. right. intros n _ Hout. apply Hout. by left. }
    assert (files st = <[pluginsDirectory := Dir]>
                         (filter (λ kv, ¬ under pluginsDirectory kv.1) fs)) as Hfiles.
    { rewrite Hf. unfold ensured. rewrite decide_False; [done|].
      rewrite Hgone. by intros [? ?]. }
    split_and!.
    + done.
    + by rewrite Hfiles, lookup_insert_eq.
    + intros p Hin Hne. rewrite Hfiles, lookup_insert_ne by done.
      apply map_lookup_filter_None. right. intros n _ Hout. by apply Hout.
    + intros p Hout. rewrite Hfiles, lookup_insert_ne by (intros <-; apply Hout; by left).
      destruct (fs !! p) as [n|] eqn:E.
      * by apply map_lookup_filter_Some.
      * apply map_lookup_filter_None. by left.
    + rewrite Hf. apply timestampFile_ensured.
Qed.

(** X12.  A restart after a cycle resumes where the cycle stopped: when
    a cycle on a non-empty batch has got through its loop and written
    its anchor, a time at or after the epoch, a loader constructed
    without [clean] on the file system the cycle left starts from that
    anchor.  Its cache is empty: the instances of before the restart are
    gone although their artifacts are on disk. *)
Theorem restart_resumes_at_saved_anchor src st l t rc :
  isLoading st = false →
  src (anchor st) = Resolved l → l ≠ [] →
  (∀ d, d ∈ l → ¬ undeletable st d) →
  files st !! timestampFile ≠ Some Dir →
  getNextAnchor l = TimeValue t → 0 <= t <= maxTime →
  let st' := new_BaseScriptLoader false (files (cycle st src)) rc in
  anchor st' = anchor (cycle st src)
  ∧ anchor st' = TimeValue t
  ∧ (∀ k, get k st' = None)
  ∧ (∀ q, q ≠ pluginsDirectory → files st' !! q = files (cycle st src) !! q).
Proof.
  intros Hidle Hsrc Hne Hok Hdir Hnext Ht st'.
  destruct (cycle_advances src st l Hidle Hsrc Hne Hok) as [Hanchor Hfile].
  specialize (Hfile Hdir). rewrite Hnext in Hanchor, Hfile.
  destruct (new_BaseScriptLoader_fields false (files (cycle st src)) rc)
    as (Hc & _ & _ & _ & Hf & Ha).
  fold st' in Hc, Hf, Ha. specialize (Ha st' Hf).
  rewrite (load_of_persisted t st' Ht) in Ha
    by (by rewrite Hf, timestampFile_ensured).
  injection Ha as Ha. split_and!; [congruence | done | |].
  - intros k. unfold get. by rewrite Hc, lookup_empty.
  - intros q Hq. rewrite Hf. unfold ensured. case_decide; [done|].
    by rewrite lookup_insert_ne.
Qed.

(** ** What the timestamp file may hold *)

Lemma trimStart_blank (pre s : list N) : isBlank pre → trimStart (pre ++ s) = trimStart s.
Proof. induction 1 as [|c pre Hc _ IH]; simpl; [done|]. by rewrite Hc. Qed.

Lemma trimStart_noSpace (s : list N) : noSpace s → trimStart s = s.
Proof. destruct 1 as [|c s Hc _]; simpl; [done|]. by rewrite Hc. Qed.

Lemma trim_noSpace (s : list N) : noSpace s → trim s = s.
Proof.
  intros Hs. unfold trim, trimEnd. rewrite (trimStart_noSpace s Hs).
  rewrite trimStart_noSpace; [apply rev_involutive|]. by apply List.Forall_rev.
Qed.

(** [trim] strips the white space around a text that has none inside. *)
Lemma trim_blank_around (pre s post : list N) :
  isBlank pre → noSpace s → isBlank post → trim (pre ++ s ++ post) = s.
Proof.
  intros Hpre Hs Hpost. unfold trim, trimEnd.
  rewrite trimStart_blank by done.
  destruct s as [|c s].
  - simpl. replace (trimStart post) with (@nil N); [done|].
    clear -Hpost. induction Hpost as [|c post Hc _ IH]; simpl; [done|]. by rewrite Hc.
  - inversion Hs as [|? ? Hc Hs']; subst.
    change (trimStart ((c :: s) ++ post)) with
      (if isWhiteSpace c then trimStart (s ++ post) else (c :: s) ++ post).
    rewrite Hc, rev_app_distr, trimStart_blank by (by apply List.Forall_rev).
    rewrite trimStart_noSpace by (by apply List.Forall_rev). apply rev_involutive.
Qed.

Lemma digits_noSpace (n : N) : noSpace (digits n).
Proof.
  eapply Forall_impl; [apply digits_decimal|]. intros c Hc. by apply decimal_not_space.
Qed.

(** X13.  An anchor that is not after the epoch does not survive a
    restart.  Saving a date before the epoch, the epoch itself or the
    invalid date returns normally and writes its number, signed, or
    [NaN], to the timestamp file; loading that file yields the epoch. *)
Theorem anchor_not_after_epoch_is_lost a st :
  files st !! timestampFile ≠ Some Dir →
  a = InvalidDate ∨ (∃ t, a = TimeValue t ∧ t <= 0) →
  (saveLastUpdateTimestamp a st).1 = Return tt
  ∧ files (saveLastUpdateTimestamp a st).2 !! timestampFile = Some (persisted a)
  ∧ (loadLastUpdateTimestamp false (saveLastUpdateTimestamp a st).2).1
    = Return (TimeValue 0).
Proof.
  intros Hdir Ha.
  assert (files (saveLastUpdateTimestamp a st).2 !! timestampFile = Some (persisted a))
    as Hfile by (by rewrite saveLastUpdateTimestamp_files, decide_False, lookup_insert_eq).
  split_and!; [apply saveLastUpdateTimestamp_returns | done |].
  rewrite loadLastUpdateTimestamp_run, Hfile. unfold persisted.
  destruct Ha as [->|(t & -> & Ht)]; [by vm_compute|]. simpl getTime.
  destruct (decide (t = 0)) as [->|Hneg]; [by vm_compute|].
  unfold Number_toString.
  replace (t <? 0) with true by (symmetry; apply Z.ltb_lt; lia).
  change ([45%N] ++ digits (Z.abs_N t)) with (45%N :: digits (Z.abs_N t)).
  rewrite trim_noSpace by (constructor; [done | apply digits_noSpace]).
  pose proof (parseInt_minus (digits (Z.abs_N t))) as Hparse.
  destruct (parseInt (45%N :: digits (Z.abs_N t))) as [z|]; [|done].
  by replace (0 <? z) with false by (symmetry; apply Z.ltb_ge; lia).
Qed.

(** X14.  Loading the anchor never writes: whatever the timestamp file
    holds, a malformed content included, the file system, the cache and
    the module cache are as before; only the log grows. *)
Theorem load_never_writes clean st :
  but_log (loadLastUpdateTimestamp clean st).2 = but_log st.
Proof.
  destruct (loadLastUpdateTimestamp clean st) as [o st'] eqn:Erun.
  by apply loadLastUpdateTimestamp_reads in Erun.
Qed.

(** X15.  A timestamp file written by hand loads: white space before
    and after the decimal number, a final newline for one, is ignored. *)
Theorem load_ignores_surrounding_space pre post t st :
  isBlank pre → isBlank post →
  0 < t <= maxTime →
  files st !! timestampFile = Some (File (pre ++ digits (Z.to_N t) ++ post)) →
  (loadLastUpdateTimestamp false st).1 = Return (TimeValue t).
Proof.
  intros Hpre Hpost Ht Hfile. rewrite loadLastUpdateTimestamp_run, Hfile.
  rewrite trim_blank_around by (done || apply digits_noSpace).
  rewrite parseInt_digits, Z2N.id by lia.
  replace (0 <? t) with true by (symmetry; apply Z.ltb_lt; lia).
  by replace (t <=? maxTime) with true by (symmetry; apply Z.leb_le; lia).
Qed.

(** X16.  [stopWatching] stops the timer and nothing else: a call in
    flight is not cancelled and the loader's other fields are as before;
    from then on a timer tick does nothing, a second [stopWatching] does
    nothing, not even log, and [checkForUpdates] still starts a cycle
    when the loader is at rest. *)
Theorem stopWatching_stops_only_the_timer (s : system T K) :
  let s' := step s StopWatching in
  inflight s' = inflight s
  ∧ watchInterval (loader s') = false
  ∧ (scriptsCache (loader s'), anchor (loader s'), isLoading (loader s'),
     files (loader s'), require_cache (loader s'))
    = (scriptsCache (loader s), anchor (loader s), isLoading (loader s),
       files (loader s), require_cache (loader s))
  ∧ step s' TimerTick = s'
  ∧ step s' StopWatching = s'
  ∧ (isLoading (loader s) = false →
     inflight (step s' CheckForUpdates)
     = inflight s ++ [AwaitFetch (anchor (loader s))]).
Proof.
  destruct s as [st ts]. simpl. unfold stopWatching. unfold_monad.
  destruct (watchInterval st) eqn:Hw; simpl; rewrite ?Hw; (split_and!; try done);
    intros Hidle; unfold enter; simpl; by rewrite Hidle.
Qed.

End Lifecycle.

(* ================================================================== *)
(** * The log is write-only *)
(* ================================================================== *)

Section LogBlind.
Context {T K : Type} `{!Host T K} `{!Runtime T}.
Implicit Types (st : state T K).

Lemma log_blind_ret {A} (a : A) : log_blind (T:=T) (K:=K) (mret a).
Proof. by intros st st' Hb. Qed.

Lemma log_blind_throw {A} e : log_blind (T:=T) (K:=K) (throw (A:=A) e).
Proof. by intros st st' Hb. Qed.

Lemma log_blind_gets {A} (f : state T K → A) :
  (∀ st st', but_log st = but_log st' → f st = f st') → log_blind (gets f).
Proof. intros Hf st st' Hb. unfold gets. simpl. split; [by rewrite (Hf st st')|done]. Qed.

Lemma log_blind_modify (f : state T K → state T K) :
  (∀ st st', but_log st = but_log st' → but_log (f st) = but_log (f st')) →
  log_blind (modify f).
Proof. intros Hf st st' Hb. unfold modify. simpl. split; [done | by apply Hf]. Qed.

Lemma log_blind_bind {A B} (c : M T K A) (f : A → M T K B) :
  log_blind c → (∀ a, log_blind (f a)) → log_blind (c ≫= f).
Proof.
  intros Hc Hf st st' Hb. destruct (Hc st st' Hb) as [Ho Hs].
  unfold mbind, M_bind.
  destruct (c st) as [[a|e] st1], (c st') as [[a'|e'] st1']; cbn [fst snd] in *;
    try discriminate; injection Ho as <-; [by apply Hf | done].
Qed.

Lemma log_blind_try_catch {A} (c : M T K A) h :
  log_blind c → (∀ e, log_blind (h e)) → log_blind (try_catch c h).
Proof.
  intros Hc Hh st st' Hb. destruct (Hc st st' Hb) as [Ho Hs].
  unfold try_catch.
  destruct (c st) as [[a|e] st1], (c st') as [[a'|e'] st1']; cbn [fst snd] in *;
    try discriminate; injection Ho as <-; [done | by apply Hh].
Qed.

Lemma log_blind_try_finally {A} (c : M T K A) fin :
  log_blind c → log_blind fin → log_blind (try_finally c fin).
Proof.
  intros Hc Hfin st st' Hb. destruct (Hc st st' Hb) as [Ho Hs].
  unfold try_finally.
  destruct (c st) as [o st1], (c st') as [o' st1']; cbn [fst snd] in *; subst o'.
  destruct (Hfin st1 st1' Hs) as [Ho2 Hs2].
  destruct (fin st1) as [[[]|e] st2], (fin st1') as [[[]|e'] st2']; cbn [fst snd] in *;
    try discriminate; [done|]. by injection Ho2 as <-.
Qed.

Lemma log_blind_forOf {A} (l : list A) (body : A → M T K unit) :
  (∀ x, log_blind (body x)) → log_blind (forOf l body).
Proof.
  intros Hbody. induction l as [|x l IH]; simpl.
  - apply log_blind_ret.
  - apply log_blind_bind; [apply Hbody | done].
Qed.

Lemma log_blind_logger l msg a : log_blind (logger (T:=T) (K:=K) l msg a).
Proof. apply log_blind_modify. by intros st st' Hb. Qed.

End LogBlind.

(** Walk through a method; a leaf reads or writes fields other than the
    log. *)
Ltac blind_leaf :=
  let Hb := fresh in
  intros ? ? Hb; unfold but_log in *; simpl; injection Hb as ? ? ? ? ? ?; congruence.

Create HintDb blind discriminated.

Ltac blind :=
  repeat first
    [ progress intros
    | progress cbv zeta
    | solve [eauto 2 with blind]
    | apply log_blind_bind
    | apply log_blind_ret
    | apply log_blind_throw
    | apply log_blind_logger
    | apply log_blind_try_catch
    | apply log_blind_try_finally
    | apply log_blind_forOf
    | apply log_blind_gets; solve [blind_leaf]
    | apply log_blind_modify; solve [blind_leaf]
    | match goal with
      | |- log_blind (match ?x with _ => _ end) => destruct x
      end ].

Section LogBlindMethods.
Context {T K : Type} `{!Host T K} `{!Runtime T}.
Implicit Types (st : state T K) (s : system T K).

Lemma writeFile_blind p data : log_blind (writeFile (T:=T) (K:=K) p data).
Proof. unfold writeFile. blind. Qed.
Lemma readFileSync_blind p : log_blind (readFileSync (T:=T) (K:=K) p).
Proof. unfold readFileSync. blind. Qed.
Lemma access_blind p : log_blind (access (T:=T) (K:=K) p).
Proof. unfold access. blind. Qed.
Lemma unlink_blind p : log_blind (unlink (T:=T) (K:=K) p).
Proof. unfold unlink. blind. Qed.
Lemma toISOString_blind d : log_blind (toISOString (T:=T) (K:=K) d).
Proof. unfold toISOString. blind. Qed.
Lemma defaultOrSelf_blind m : log_blind (defaultOrSelf (T:=T) (K:=K) m).
Proof. unfold defaultOrSelf. blind. Qed.

Lemma require_blind p : log_blind (require (K:=K) p).
Proof. unfold require. pose proof readFileSync_blind. blind. Qed.

Lemma writeScriptFile_blind p script : log_blind (writeScriptFile (T:=T) (K:=K) p script).
Proof. unfold writeScriptFile. pose proof writeFile_blind. blind. Qed.

Lemma loadOrUpdateScript_blind scriptData : log_blind (loadOrUpdateScript scriptData).
Proof.
  unfold loadOrUpdateScript, loadOrUpdateScript_try.
  pose proof writeScriptFile_blind. pose proof require_blind.
  pose proof defaultOrSelf_blind. blind.
Qed.

Lemma removeScript_blind scriptData : log_blind (removeScript scriptData).
Proof.
  unfold removeScript, removeScriptFile.
  pose proof access_blind. pose proof unlink_blind. blind.
Qed.

Lemma processScriptUpdate_blind scriptData : log_blind (processScriptUpdate scriptData).
Proof.
  unfold processScriptUpdate.
  pose proof loadOrUpdateScript_blind. pose proof removeScript_blind. blind.
Qed.

Lemma saveLastUpdateTimestamp_blind a : log_blind (saveLastUpdateTimestamp (K:=K) a).
Proof.
  unfold saveLastUpdateTimestamp.
  pose proof writeFile_blind. pose proof toISOString_blind. blind.
Qed.

Lemma loadLatestScripts_exit_blind o : log_blind (loadLatestScripts_exit (T:=T) (K:=K) o).
Proof.
  unfold loadLatestScripts_exit.
  apply log_blind_try_finally; [|blind]. apply log_blind_try_catch; [|blind].
  by intros st st' Hb.
Qed.

Lemma stopWatching_blind : log_blind (stopWatching (T:=T) (K:=K)).
Proof. unfold stopWatching. blind. Qed.

(** Two loaders that differ in the log only go through a cycle alike. *)
Lemma loadLatestScripts_blind src : log_blind (loadLatestScripts (T:=T) src).
Proof.
  unfold loadLatestScripts, loadLatestScripts_try, await.
  pose proof processScriptUpdate_blind. pose proof saveLastUpdateTimestamp_blind. blind.
Qed.

Lemma same_but_log_refl s : same_but_log s s.
Proof. done. Qed.

Lemma enter_blind s s' : same_but_log s s' → same_but_log (enter s) (enter s').
Proof.
  intros [Hts Hb]. rewrite !enter_run.
  assert (isLoading (loader s) = isLoading (loader s')
          ∧ anchor (loader s) = anchor (loader s')) as [Hl Ha]
    by (unfold but_log in Hb; by injection Hb as _ -> -> _ _ _).
  rewrite Hl, Ha, Hts.
  destruct (isLoading (loader s')); (split; [done|]); simpl;
    unfold but_log in *; simpl; injection Hb as ? ? ? ? ? ?; congruence.
Qed.

Lemma continue_blind i (r r' : state T K * option (task K)) s s' :
  inflight s = inflight s' → r.2 = r'.2 → but_log r.1 = but_log r'.1 →
  same_but_log (continue i r s) (continue i r' s').
Proof.
  intros Hts Ht Hb. unfold continue. rewrite <- Ht, Hts.
  by destruct r.2.
Qed.

Lemma resume_fetch_blind a src st st' :
  but_log st = but_log st' →
  (resume_fetch a src st).2 = (resume_fetch a src st').2
  ∧ but_log (resume_fetch a src st).1 = but_log (resume_fetch a src st').1.
Proof.
  intros Hb. unfold resume_fetch.
  destruct (src a) as [l|e]; cbn [await]; unfold_monad.
  - destruct (0 <? length l)%nat; [done|]. split; [done|].
    by apply loadLatestScripts_exit_blind.
  - split; [done|]. by apply loadLatestScripts_exit_blind.
Qed.

Lemma resume_batch_blind rest whole st st' :
  but_log st = but_log st' →
  (resume_batch rest whole st).2 = (resume_batch rest whole st').2
  ∧ but_log (resume_batch rest whole st).1 = but_log (resume_batch rest whole st').1.
Proof.
  intros Hb. unfold resume_batch. destruct rest as [|item rest].
  - assert (log_blind (modify (set_anchor (getNextAnchor whole)) ;;
                       a' ← gets anchor; saveLastUpdateTimestamp (K:=K) a')) as Hlast.
    { pose proof saveLastUpdateTimestamp_blind. blind. }
    destruct (Hlast st st' Hb) as [Ho Hs].
    match goal with
    | |- context [let '(_, _) := ?c st in _] =>
        destruct (c st) as [o st1], (c st') as [o' st1']
    end.
    cbn [fst snd] in Ho, Hs. subst o'. split; [done|].
    by apply loadLatestScripts_exit_blind.
  - destruct (processScriptUpdate_blind item st st' Hb) as [Ho Hs].
    destruct (processScriptUpdate item st) as [[[]|e] st1],
      (processScriptUpdate item st') as [[[]|e'] st1']; cbn [fst snd] in *;
      try discriminate; [done|].
    injection Ho as <-. split; [done|]. by apply loadLatestScripts_exit_blind.
Qed.

(** The scheduler does not read the log either. *)
Lemma step_blind e s s' : same_but_log s s' → same_but_log (step s e) (step s' e).
Proof.
  intros [Hts Hb]. destruct e as [| | |i src|i]; simpl.
  - assert (watchInterval (loader s) = watchInterval (loader s')) as ->
      by (unfold but_log in Hb; by injection Hb as _ _ _ -> _ _).
    destruct (watchInterval (loader s')); [by apply enter_blind | done].
  - apply enter_blind. split; [done|]. simpl.
    unfold but_log in *. simpl. injection Hb as ? ? ? ? ? ?. congruence.
  - split; [done|]. by apply stopWatching_blind.
  - rewrite <- Hts. destruct (inflight s !! i) as [[a|rest whole]|]; try done.
    destruct (resume_fetch_blind a src _ _ Hb). by apply continue_blind.
  - rewrite <- Hts. destruct (inflight s !! i) as [[a|rest whole]|]; try done.
    destruct (resume_batch_blind rest whole _ _ Hb). by apply continue_blind.
Qed.

Lemma run_blind evs : ∀ s s', same_but_log s s' → same_but_log (run evs s) (run evs s').
Proof.
  induction evs as [|e evs IH]; intros s s' Hs; [done|].
  rewrite !run_cons. apply IH. by apply step_blind.
Qed.

(** X17.  A trigger dropped at the guard leaves no trace but in the log:
    when a timer tick or a call of [checkForUpdates] arrives while a
    cycle is in flight, whatever happens afterwards, the calls in flight
    and the loader, its log apart, are what they would be had the
    trigger not arrived. *)
Theorem dropped_trigger_leaves_no_trace s t evs :
  reachable s →
  inflight s ≠ [] →
  t = TimerTick ∨ t = CheckForUpdates →
  inflight (run evs (step s t)) = inflight (run evs s)
  ∧ but_log (loader (run evs (step s t))) = but_log (loader (run evs s)).
Proof.
  intros Hreach Hsome Ht. apply run_blind.
  destruct (reachable_one_in_flight s Hreach) as [[Hnone _]|(t0 & Hone & Hbusy)];
    [done|].
  destruct Ht as [-> | ->]; simpl.
  - destruct (watchInterval (loader s)); [|done]. rewrite enter_run, Hbusy. by split.
  - rewrite enter_run. simpl. rewrite Hbusy. by split.
Qed.

(** X18.  Nothing the loader does depends on what it has logged: two
    loaders that differ in the log only end a cycle on the same answer
    of the source with the same cache, anchor, flags, file system and
    module cache. *)
Theorem cycle_does_not_read_the_log src (st st' : state T K) :
  but_log st = but_log st' →
  but_log (cycle st src) = but_log (cycle st' src).
Proof. intros Hb. by apply loadLatestScripts_blind. Qed.

End LogBlindMethods.

(* ================================================================== *)
(** * The properties on the concrete host *)
(* ================================================================== *)

Import Demo.

Lemma failed_activation_keeps_cache_witness :
  get "a" withA = Some "A"
  ∧ scriptsCache (loadOrUpdateScript recA_bad withA).2 = scriptsCache withA
  ∧ (∀ key, get key (loadOrUpdateScript recA_bad withA).2 = get key withA)
  ∧ (loadOrUpdateScript recA_bad withA).1 = Return tt.
Proof.
  split; [vm_compute; reflexivity|].
  apply (failed_activation_keeps_cache recA_bad withA
           (Error "Script module does not export a constructor: /srv/scripts/plugins/a.js")
           (loadOrUpdateScript_try recA_bad "a" "/srv/scripts/plugins/a.js" withA).2).
  vm_compute. reflexivity.
Defined.

Lemma failed_activation_leaves_new_artifact_witness :
  (metaData <$> scriptsCache withA !! "a" = Some recA
   ∧ instance <$> scriptsCache withA !! "a" = Some "A")
  ∧ let st' := (loadOrUpdateScript recA_bad withA).2 in
    files st' !! artifact recA_bad = Some (File (getScriptText recA_bad))
    ∧ scriptsCache st' = scriptsCache withA
    ∧ get (getScriptKey recA_bad) st' = get (getScriptKey recA_bad) withA.
Proof.
  split; [split; vm_compute; reflexivity|].
  apply (failed_activation_leaves_new_artifact recA_bad withA).
  - vm_compute. discriminate.
  - vm_compute. reflexivity.
Defined.

Lemma removal_clears_artifact_and_cache_witness :
  (get "a" withA = Some "A"
   ∧ files (removeScript recA_gone withA).2 !! artifact recA_gone = None
   ∧ files (removeScript recA_gone withA).2 = delete (artifact recA_gone) (files withA)
   ∧ scriptsCache (removeScript recA_gone withA).2
     = delete (getScriptKey recA_gone) (scriptsCache withA)
   ∧ get (getScriptKey recA_gone) (removeScript recA_gone withA).2 = None)
  ∧ ((removeScript recA_gone fresh).1 = Return tt
     ∧ files (removeScript recA_gone fresh).2 = files fresh).
Proof.
  split.
  - split; [vm_compute; reflexivity|].
    apply (proj1 (removal_clears_artifact_and_cache recA_gone withA)).
    vm_compute. reflexivity.
  - apply (proj2 (removal_clears_artifact_and_cache recA_gone fresh)).
    vm_compute. reflexivity.
Defined.

Lemma active_takes_precedence_witness :
  (isActiveScript recBoth = true ∧ isObsoletedScript recBoth = true
   ∧ ∀ obs, processScriptUpdate (Host0 := with_obsolete obs) recBoth fresh
            = loadOrUpdateScript recBoth fresh)
  ∧ processScriptUpdate recA_gone withA = removeScript recA_gone withA
  ∧ processScriptUpdate recNeither withA = (Return tt, withA).
Proof.
  split_and!.
  - reflexivity.
  - reflexivity.
  - apply (proj1 (active_takes_precedence recBoth fresh)). reflexivity.
  - apply (proj1 (proj2 (active_takes_precedence recA_gone withA))); reflexivity.
  - apply (proj2 (proj2 (active_takes_precedence recNeither withA))); reflexivity.
Defined.

Lemma empty_batch_changes_nothing_witness :
  scriptsCache (cycle withA (answering [])) = scriptsCache withA
  ∧ files (cycle withA (answering [])) = files withA
  ∧ anchor (cycle withA (answering [])) = anchor withA
  ∧ require_cache (cycle withA (answering [])) = require_cache withA
  ∧ isLoading (cycle withA (answering [])) = isLoading withA
  ∧ (isLoading withA = false → cycle withA (answering []) = withA).
Proof. apply (empty_batch_changes_nothing (answering []) withA). reflexivity. Defined.

Lemma save_then_load_roundtrip_witness :
  (loadLastUpdateTimestamp false
     (saveLastUpdateTimestamp (TimeValue 1700000000000) fresh).2).1
  = Return (TimeValue 1700000000000).
Proof.
  apply (save_then_load_roundtrip 1700000000000 fresh).
  - unfold maxTime. lia.
  - vm_compute. discriminate.
Defined.


Lemma anchor_monotone_and_advanced_witness :
  Date_le (anchor (run_cycles [answering [recA]] fresh))
          (anchor (run_cycles ([answering [recA]] ++ [answering [recB]]) fresh))
  ∧ anchor (cycle fresh (answering [recA])) = getNextAnchor [recA]
  ∧ files (cycle fresh (answering [recA])) !! timestampFile
    = Some (persisted (getNextAnchor [recA]))
  ∧ last (logged (cycle unwritable (answering [recA])))
    = Some (save_failed_entry (SystemError "EISDIR" timestampFile))
  ∧ anchor (cycle unwritable (answering [recA])) = getNextAnchor [recA].
Proof.
  destruct (anchor_monotone_and_advanced placed) as [Hmono Hadv].
  assert (∀ st, ∀ scriptData, scriptData ∈ [recA] → ¬ undeletable st scriptData)
    as Hok.
  { intros st scriptData Hin (Hactive & _). apply list_elem_of_singleton in Hin.
    subst scriptData. discriminate. }
  destruct (Hadv (answering [recA]) fresh [recA]) as (Hanchor & Hfile & _);
    [vm_compute; reflexivity|reflexivity|discriminate|apply Hok|].
  destruct (Hadv (answering [recA]) unwritable [recA]) as (_ & _ & Hlog);
    [vm_compute; reflexivity|reflexivity|discriminate|apply Hok|].
  destruct Hlog as (Hl & _ & Ha); [vm_compute; reflexivity|].
  split_and!; [|done| |done|done].
  - apply (Hmono [answering [recA]] [answering [recB]] fresh 0).
    + vm_compute. reflexivity.
    + simpl. split_and!; [| |done].
      * intros l [= <-] _. split; [repeat constructor|]; vm_compute; discriminate.
      * intros l [= <-] _. split; [repeat constructor|]; vm_compute; discriminate.
  - apply Hfile. vm_compute. discriminate.
Defined.

(** C4 read literally fails where the timestamp path cannot be written:
    the contract holds, the batch is not empty, the anchor advances in
    memory, and the timestamp file does not hold the new value. *)
Lemma anchor_not_persisted_counterexample :
  anchor_contract placed (anchor unwritable) [recA]
  ∧ isLoading unwritable = false
  ∧ anchor (cycle unwritable (answering [recA])) = getNextAnchor [recA]
  ∧ ¬ anchor_advanced_and_persisted unwritable (answering [recA]).
Proof.
  split_and!.
  - split; [repeat constructor|]; vm_compute; discriminate.
  - vm_compute. reflexivity.
  - vm_compute. reflexivity.
  - intros Hall. destruct (Hall [recA] eq_refl ltac:(discriminate)) as [_ Hfile].
    vm_compute in Hfile. discriminate.
Qed.

Lemma load_yields_persisted_or_epoch_witness :
  (loadLastUpdateTimestamp false (holding " 1700000000000 ")).1
  = Return (TimeValue 1700000000000)
  ∧ (loadLastUpdateTimestamp false (holding "0")).1 = Return (TimeValue 0)
  ∧ (loadLastUpdateTimestamp false (holding "-5")).1 = Return (TimeValue 0)
  ∧ (loadLastUpdateTimestamp false (holding "abc")).1 = Return (TimeValue 0).
Proof.
  assert (∀ text, files (holding text) !! timestampFile = Some (File (units text)))
    as Hfile by (intros text; apply lookup_singleton_eq).
  split_and!.
  - destruct (load_yields_persisted_or_epoch false (holding " 1700000000000 "))
      as (_ & _ & Hcontent).
    destruct (Hcontent _ eq_refl (Hfile _)) as (_ & _ & Hdecimal).
    apply Hdecimal. split; [discriminate|].
    vm_compute. repeat constructor; discriminate.
  - destruct (load_yields_persisted_or_epoch false (holding "0"))
      as (_ & _ & Hcontent).
    destruct (Hcontent _ eq_refl (Hfile _)) as (_ & _ & Hdecimal).
    apply Hdecimal. split; [discriminate|].
    vm_compute. repeat constructor; discriminate.
  - destruct (load_yields_persisted_or_epoch false (holding "-5"))
      as (_ & _ & Hcontent).
    destruct (Hcontent _ eq_refl (Hfile _)) as (_ & Hminus & _).
    apply (Hminus (units "5")). reflexivity.
  - destruct (load_yields_persisted_or_epoch false (holding "abc"))
      as (_ & _ & Hcontent).
    destruct (Hcontent _ eq_refl (Hfile _)) as (Hno & _ & _).
    apply Hno. vm_compute. intros [Hlo Hhi]. apply Hhi. reflexivity.
Defined.

(** C6 read literally fails on a timestamp file holding a positive
    integer above the range of [Date]: the content is numeric and
    positive, the date parsed from it is the invalid date, and the
    loader returns the epoch. *)
Lemma load_out_of_range_counterexample :
  parseInt (trim (units "8640000000000001")) = Some 8640000000000001
  ∧ new_Date 8640000000000001 = InvalidDate
  ∧ (loadLastUpdateTimestamp false (holding "8640000000000001")).1 = Return (TimeValue 0)
  ∧ ¬ load_as_described false (holding "8640000000000001").
Proof.
  split_and!; try (vm_compute; reflexivity).
  unfold load_as_described. vm_compute. discriminate.
Qed.

(** C1, at the failing input.  The batch is a removal whose artifact
    path holds a directory, followed by an activation.  [unlink] throws
    out of [removeScript], which has no handler of its own; the loop is
    left, the second record is never processed, the anchor stays where
    it was and no timestamp is written: the failure is logged once, by
    the [catch] clause of the whole cycle.  A failing activation in the
    same position is caught inside [loadOrUpdateScript] and the batch
    goes on. *)
Example removal_failure_aborts_batch :
  let st' := cycle blocked (answering [recOld_gone; recB]) in
  let st'' := cycle fresh (answering [recA_bad; recB]) in
  undeletable blocked recOld_gone
  ∧ get "b" st' = None
  ∧ files st' !! artifact recB = None
  ∧ anchor st' = anchor blocked
  ∧ getNextAnchor [recOld_gone; recB] = TimeValue 160
  ∧ files st' !! timestampFile = None
  ∧ last (logged st') = Some (failed_entry (SystemError "EISDIR" (artifact recOld_gone)))
  ∧ isLoading st' = false
  ∧ get "a" st'' = None
  ∧ get "b" st'' = Some "B"
  ∧ anchor st'' = TimeValue 200.
Proof. vm_compute. split_and!; reflexivity. Qed.


Lemma constructed_loader_is_fresh_witness :
  let fs : gmap string node :=
    {[ "/srv/scripts" := Dir; tsFile := File (units "1700000000000") ]} in
  let st : state string script := new_BaseScriptLoader false fs ∅ in
  get "a" st = None
  ∧ isLoading st = false
  ∧ watchInterval st = true
  ∧ anchor st = TimeValue 1700000000000
  ∧ files st !! pluginsDirectory = Some Dir.
Proof.
  destruct (constructed_loader_is_fresh (T:=string) (K:=script) false
              {[ "/srv/scripts" := Dir; tsFile := File (units "1700000000000") ]} ∅)
    as (Hget & Hflag & Htimer & _).
  - vm_compute. reflexivity.
  - split_and!; [apply Hget|exact Hflag|exact Htimer| |];
      vm_compute; reflexivity.
Defined.

Lemma constructor_on_disk_witness :
  let fs : gmap string node :=
    {[ "/srv/scripts" := Dir;
       "/srv/scripts/plugins" := Dir;
       "/srv/scripts/plugins/a.js" := File classA;
       tsFile := File (units "1700000000000") ]} in
  files (new_BaseScriptLoader (T:=string) (K:=script) false fs ∅) = fs
  ∧ anchor (new_BaseScriptLoader (T:=string) (K:=script) true fs ∅) = TimeValue 0
  ∧ files (new_BaseScriptLoader (T:=string) (K:=script) true fs ∅)
      !! "/srv/scripts/plugins/a.js" = None
  ∧ files (new_BaseScriptLoader (T:=string) (K:=script) true fs ∅) !! tsFile
    = Some (File (units "1700000000000")).
Proof.
  destruct (constructor_on_disk (T:=string) (K:=script)
              {[ "/srv/scripts" := Dir;
                 "/srv/scripts/plugins" := Dir;
                 "/srv/scripts/plugins/a.js" := File classA;
                 tsFile := File (units "1700000000000") ]} ∅)
    as (Hkeep & Hepoch & _ & Hgone & _ & Hts).
  - vm_compute. reflexivity.
  - split_and!.
    + etrans; [exact Hkeep|]. vm_compute. reflexivity.
    + exact Hepoch.
    + apply Hgone; [|vm_compute; discriminate]. right. vm_compute. reflexivity.
    + etrans; [exact Hts|]. vm_compute. reflexivity.
Defined.



Lemma cycle_touches_only_its_records_witness :
  get "a" (cycle withA (answering [recB; recNeither])) = get "a" withA
  ∧ files (cycle withA (answering [recB; recNeither])) !! artifact recA
    = files withA !! artifact recA.
Proof.
  destruct (cycle_touches_only_its_records (answering [recB; recNeither]) withA)
    as [Hkeys Hpaths].
  { intros l d [= <-] Hin.
    apply elem_of_cons in Hin as [->|Hin];
      [|apply list_elem_of_singleton in Hin as ->];
      unfold plainName; simpl; repeat constructor; discriminate. }
  split.
  - apply Hkeys. intros l d [= <-] Hin.
    apply elem_of_cons in Hin as [->|Hin]; [discriminate|].
    apply list_elem_of_singleton in Hin as ->. discriminate.
  - apply Hpaths; [vm_compute; discriminate|]. intros l d [= <-] Hin.
    apply elem_of_cons in Hin as [->|Hin]; [vm_compute; discriminate|].
    apply list_elem_of_singleton in Hin as ->. vm_compute. discriminate.
Defined.

Lemma rejected_query_changes_nothing_witness :
  but_log (cycle withA failing) = but_log withA
  ∧ (isLoading withA = false →
     cycle withA failing = add_log (failed_entry (Thrown "source down")) withA).
Proof. apply (rejected_query_changes_nothing failing withA). reflexivity. Defined.

Lemma last_removal_of_a_key_stands_witness :
  get "a" (cycle fresh (answering ([recA] ++ recA_gone :: [recB]))) = None
  ∧ get "a" (cycle withA (answering ([recB] ++ recA_gone :: [recNeither]))) = None.
Proof.
  split.
  - change "a" with (getScriptKey recA_gone).
    apply (last_removal_of_a_key_stands
             (answering ([recA] ++ recA_gone :: [recB])) fresh [recA] recA_gone [recB]).
    + vm_compute. reflexivity.
    + reflexivity.
    + intros d Hd.
      apply elem_of_app in Hd as [Hd|Hd]; apply list_elem_of_singleton in Hd as ->;
        unfold plainName; simpl; repeat constructor; discriminate.
    + intros d Hd (Ha & _). apply list_elem_of_singleton in Hd as ->. discriminate.
    + intros d Hd. apply list_elem_of_singleton in Hd as ->. discriminate.
    + vm_compute. discriminate.
    + reflexivity.
    + reflexivity.
  - change "a" with (getScriptKey recA_gone).
    apply (last_removal_of_a_key_stands
             (answering ([recB] ++ recA_gone :: [recNeither])) withA
             [recB] recA_gone [recNeither]).
    + vm_compute. reflexivity.
    + reflexivity.
    + intros d Hd.
      apply elem_of_app in Hd as [Hd|Hd]; apply list_elem_of_singleton in Hd as ->;
        unfold plainName; simpl; repeat constructor; discriminate.
    + intros d Hd (Ha & _). apply list_elem_of_singleton in Hd as ->. discriminate.
    + intros d Hd. apply list_elem_of_singleton in Hd as ->. discriminate.
    + vm_compute. discriminate.
    + reflexivity.
    + reflexivity.
Defined.


Lemma restart_resumes_at_saved_anchor_witness :
  get "a" (cycle fresh (answering [recA])) = Some "A"
  ∧ anchor (new_BaseScriptLoader false (files (cycle fresh (answering [recA]))) ∅)
    = TimeValue 100
  ∧ (∀ k, get k (new_BaseScriptLoader (T:=string) false
                   (files (cycle fresh (answering [recA]))) ∅) = None).
Proof.
  split; [vm_compute; reflexivity|].
  destruct (restart_resumes_at_saved_anchor (answering [recA]) fresh [recA] 100 ∅)
    as (_ & Hanchor & Hget & _).
  - vm_compute. reflexivity.
  - reflexivity.
  - discriminate.
  - intros d Hd (Ha & _). apply list_elem_of_singleton in Hd as ->. discriminate.
  - vm_compute. discriminate.
  - vm_compute. reflexivity.
  - unfold maxTime. lia.
  - split; [exact Hanchor | exact Hget].
Defined.

Lemma anchor_not_after_epoch_is_lost_witness :
  files (saveLastUpdateTimestamp (TimeValue (-5)) fresh).2 !! timestampFile
  = Some (File (units "-5"))
  ∧ (loadLastUpdateTimestamp false (saveLastUpdateTimestamp (TimeValue (-5)) fresh).2).1
    = Return (TimeValue 0).
Proof.
  destruct (anchor_not_after_epoch_is_lost (TimeValue (-5)) fresh) as (_ & Hfile & Hload).
  - vm_compute. discriminate.
  - right. exists (-5). split; [reflexivity | lia].
  - split; [exact Hfile | exact Hload].
Defined.

Lemma load_ignores_surrounding_space_witness :
  (loadLastUpdateTimestamp false
     (State (T:=string) (K:=script) ∅ (new_Date 0) false false
        {[ timestampFile := File ([32%N] ++ digits (Z.to_N 42) ++ [13%N; 10%N]) ]} ∅ [])).1
  = Return (TimeValue 42).
Proof.
  apply (load_ignores_surrounding_space [32%N] [13%N; 10%N] 42).
  - repeat constructor.
  - repeat constructor.
  - unfold maxTime. lia.
  - vm_compute. reflexivity.
Defined.

Lemma dropped_trigger_leaves_no_trace_witness :
  inflight
    (run [Settle 0 (answering [recA]); Advance 0; Advance 0]
       (step (step (System fresh []) CheckForUpdates) TimerTick))
  = inflight
      (run [Settle 0 (answering [recA]); Advance 0; Advance 0]
         (step (System fresh []) CheckForUpdates))
  ∧ but_log (loader
      (run [Settle 0 (answering [recA]); Advance 0; Advance 0]
         (step (step (System fresh []) CheckForUpdates) TimerTick)))
    = but_log (loader
        (run [Settle 0 (answering [recA]); Advance 0; Advance 0]
           (step (System fresh []) CheckForUpdates))).
Proof.
  apply (dropped_trigger_leaves_no_trace (step (System fresh []) CheckForUpdates) TimerTick).
  - apply reachable_step, reachable_idle. vm_compute. reflexivity.
  - vm_compute. discriminate.
  - left. reflexivity.
Defined.

Lemma cycle_does_not_read_the_log_witness :
  but_log (cycle withA (answering [recB]))
  = but_log (cycle (add_log busy_entry withA) (answering [recB])).
Proof.
  apply (cycle_does_not_read_the_log (answering [recB]) withA (add_log busy_entry withA)).
  reflexivity.
Defined.
